(** * validate_skill.py: the rule-checklist validator of a skill folder

    A shallow embedding of [.agent/workflows/scripts/validate_skill.py]
    and the properties its specification states about it.

    Python [str] values are lists of characters.  A character is an
    [ascii]: the embedding covers the code points below 256, where
    whitespace ([str.isspace], the regular-expression class [\s]) and
    [str.lower] are what Python defines at those code points.  Text that
    is only printed (the report) keeps characters above that range as
    their UTF-8 bytes. *)

From Stdlib Require Import List Ascii Bool Arith ZArith Lia.
From Stdlib Require String.
Import String.StringSyntax.
From Stdlib Require Import Numbers.DecimalString.
Import ListNotations.

Open Scope string_scope.
Open Scope list_scope.
Open Scope nat_scope.

(** ** Characters and strings *)

Definition str := list ascii.

(** String literals are read as character lists. *)
Coercion String.list_ascii_of_string : String.string >-> list.

Definition code (c : ascii) : nat := nat_of_ascii c.

Definition NL : ascii := ascii_of_nat 10.

(** [str.isspace] on one character, as CPython's [Py_UNICODE_ISSPACE]:
    U+0009..U+000D, U+001C..U+0020, U+0085 and U+00A0. *)
Definition isspace (c : ascii) : bool :=
  let n := code c in
  ((9 <=? n) && (n <=? 13)) || ((28 <=? n) && (n <=? 32))
  || (n =? 133) || (n =? 160).

(** [str.lower] on one character: A-Z, and the upper-case letters of
    the Latin-1 block (U+00C0..U+00DE without the sign U+00D7). *)
Definition lower_char (c : ascii) : ascii :=
  let n := code c in
  if ((65 <=? n) && (n <=? 90))
     || ((192 <=? n) && (n <=? 222) && negb (n =? 215))
  then ascii_of_nat (n + 32) else c.

Definition lower (s : str) : str := map lower_char s.

Definition str_eqb (a b : str) : bool :=
  if list_eq_dec ascii_dec a b then true else false.

(** [bool(s)] of a string: non-empty. *)
Definition truthy (s : str) : bool :=
  match s with [] => false | _ :: _ => true end.

(** [s.startswith(p)] *)
Fixpoint startswith (p s : str) : bool :=
  match p, s with
  | [], _ => true
  | _ :: _, [] => false
  | a :: p', b :: s' => Ascii.eqb a b && startswith p' s'
  end.

(** [sub in s] *)
Fixpoint contains (sub s : str) : bool :=
  startswith sub s ||
  match s with
  | [] => false
  | _ :: s' => contains sub s'
  end.

(** [s.find(sub, start)] for [start <= len(s)]; [None] stands for -1. *)
Fixpoint find_at (sub s : str) (i : nat) : option nat :=
  if startswith sub s then Some i
  else match s with
       | [] => None
       | _ :: s' => find_at sub s' (S i)
       end.

Definition find (sub s : str) (start : nat) : option nat :=
  if start <=? length s then find_at sub (skipn start s) start else None.

(** [s.lstrip(chars)], [s.rstrip(chars)], [s.strip(chars)] with the set
    of characters given as a predicate. *)
Fixpoint lstrip_by (p : ascii -> bool) (s : str) : str :=
  match s with
  | [] => []
  | c :: s' => if p c then lstrip_by p s' else s
  end.

Definition rstrip_by (p : ascii -> bool) (s : str) : str :=
  rev (lstrip_by p (rev s)).

Definition strip_by (p : ascii -> bool) (s : str) : str :=
  rstrip_by p (lstrip_by p s).

Definition lstrip : str -> str := lstrip_by isspace.
Definition strip : str -> str := strip_by isspace.

Definition in_chars (chars : str) (c : ascii) : bool :=
  existsb (Ascii.eqb c) chars.

(** [s.split(sep)] for a one-character separator: empty pieces kept. *)
Fixpoint split_on (sep : ascii) (s : str) : list str :=
  match s with
  | [] => [[]]
  | c :: s' =>
      if Ascii.eqb c sep then [] :: split_on sep s'
      else match split_on sep s' with
           | [] => [[c]]
           | l :: ls => (c :: l) :: ls
           end
  end.

(** [s.split()]: the maximal runs of non-whitespace characters. *)
Fixpoint split_ws_aux (cur : str) (s : str) : list str :=
  match s with
  | [] => match cur with [] => [] | _ => [rev cur] end
  | c :: s' =>
      if isspace c
      then match cur with
           | [] => split_ws_aux [] s'
           | _ => rev cur :: split_ws_aux [] s'
           end
      else split_ws_aux (c :: cur) s'
  end.

Definition split_ws (s : str) : list str := split_ws_aux [] s.

(** [sep.join(parts)] *)
Fixpoint join (sep : str) (parts : list str) : str :=
  match parts with
  | [] => []
  | [p] => p
  | p :: ps => p ++ sep ++ join sep ps
  end.

(** [str(n)] of an integer, as f-strings format it. *)
Definition str_of_Z (n : Z) : str :=
  String.list_ascii_of_string (NilZero.string_of_int (Z.to_int n)).

Definition str_of_nat (n : nat) : str := str_of_Z (Z.of_nat n).

(** ** Regular expressions

    The part of Python's [re] the validator uses: literals, classes,
    the anchors [^] and [$] under [re.MULTILINE], sequence, greedy and
    lazy repetition and capturing groups.  Matching is by backtracking;
    [run] lists the ways an expression can match at a position in the
    order the backtracking matcher tries them, so that its first element
    is the match [re] reports. *)

Inductive regex : Type :=
| Emp
| Chr (c : ascii)
| Cls (p : ascii -> bool)
| Bol
| Eol
| Cat (r1 r2 : regex)
| Rep (greedy : bool) (r : regex)
| Grp (n : nat) (r : regex).

Definition captures := list (nat * str).

(** A position: the character before it (none at the start of the
    string), the text after it, and the groups captured so far. *)
Definition pos : Type := option ascii * str * captures.

Definition at_bol (prev : option ascii) : bool :=
  match prev with
  | None => true
  | Some c => Ascii.eqb c NL
  end.

Definition at_eol (s : str) : bool :=
  match s with
  | [] => true
  | c :: _ => Ascii.eqb c NL
  end.

Definition set_cap (n : nat) (v : str) (g : captures) : captures :=
  (n, v) :: filter (fun e => negb (fst e =? n)) g.

Fixpoint get_cap (n : nat) (g : captures) : option str :=
  match g with
  | [] => None
  | (k, v) :: g' => if k =? n then Some v else get_cap n g'
  end.

(** The text consumed between a string and one of its suffixes. *)
Definition consumed (s s' : str) : str := firstn (length s - length s') s.

(** The loop of a repetition: [step] matches the body once.  An
    iteration has to consume a character (every repeated expression of
    this program does), so the length of the text bounds their number. *)
Fixpoint rep_loop (step : option ascii -> str -> captures -> list pos)
  (greedy : bool) (fuel : nat) (prev : option ascii) (s : str)
  (g : captures) {struct fuel} : list pos :=
  match fuel with
  | O => [(prev, s, g)]
  | S fuel' =>
      let more :=
        flat_map (fun q : pos =>
                    let '(p', s', g') := q in
                    if length s' <? length s
                    then rep_loop step greedy fuel' p' s' g' else [])
                 (step prev s g) in
      if greedy then more ++ [(prev, s, g)]
      else (prev, s, g) :: more
  end.

Fixpoint run (r : regex) (prev : option ascii) (s : str) (g : captures)
  : list pos :=
  match r with
  | Emp => [(prev, s, g)]
  | Chr c =>
      match s with
      | x :: s' => if Ascii.eqb x c then [(Some x, s', g)] else []
      | [] => []
      end
  | Cls p =>
      match s with
      | x :: s' => if p x then [(Some x, s', g)] else []
      | [] => []
      end
  | Bol => if at_bol prev then [(prev, s, g)] else []
  | Eol => if at_eol s then [(prev, s, g)] else []
  | Cat r1 r2 =>
      flat_map (fun q : pos => let '(p', s', g') := q in run r2 p' s' g')
               (run r1 prev s g)
  | Grp n r1 =>
      map (fun q : pos =>
             let '(p', s', g') := q in (p', s', set_cap n (consumed s s') g'))
          (run r1 prev s g)
  | Rep greedy r1 => rep_loop (run r1) greedy (length s) prev s g
  end.

(** [r+] *)
Definition Plus (r : regex) : regex := Cat r (Rep true r).

(** A literal string. *)
Fixpoint Lit (s : str) : regex :=
  match s with
  | [] => Emp
  | c :: s' => Cat (Chr c) (Lit s')
  end.

(** [re.fullmatch(r, s)]: the first way to match that ends at the end
    of the string. *)
Definition fullmatch (r : regex) (s : str) : option captures :=
  match filter (fun q : pos => match snd (fst q) with [] => true | _ => false end)
               (run r None s []) with
  | q :: _ => Some (snd q)
  | [] => None
  end.

(** A match found by [re.search]: the text from where the match starts,
    the text after the match, and the groups. *)
Record rematch : Type := MkMatch {
  m_from : str;
  m_rest : str;
  m_caps : captures
}.

(** [m.group(0)] *)
Definition group0 (m : rematch) : str := consumed (m_from m) (m_rest m).

(** [m.group(n)] for a group that took part in the match. *)
Definition group (n : nat) (m : rematch) : str :=
  match get_cap n (m_caps m) with
  | Some v => v
  | None => []
  end.

(** [re.search(r, s)]: the start positions are tried from left to
    right, and at each the first match of the backtracking order wins. *)
Fixpoint search_from (r : regex) (prev : option ascii) (s : str)
  : option rematch :=
  match run r prev s [] with
  | q :: _ => Some (MkMatch s (snd (fst q)) (snd q))
  | [] =>
      match s with
      | [] => None
      | c :: s' => search_from r (Some c) s'
      end
  end.

Definition search (r : regex) (s : str) : option rematch :=
  search_from r None s.

(** A sequence of expressions. *)
Fixpoint Seq (rs : list regex) : regex :=
  match rs with
  | [] => Emp
  | [r] => r
  | r :: rs' => Cat r (Seq rs')
  end.

(** [\s], [.] without [re.DOTALL], [.] with [re.DOTALL], [[a-z0-9]]. *)
Definition not_nl (c : ascii) : bool := negb (Ascii.eqb c NL).
Definition any_char (c : ascii) : bool := true.
Definition lower_alnum (c : ascii) : bool :=
  let n := code c in
  ((97 <=? n) && (n <=? 122)) || ((48 <=? n) && (n <=? 57)).

(** ** Result model *)

Record CheckResult : Type := MkCheck {
  label : str;
  passed : bool;
  detail : str;
  fix_ : str
}.

(** ** Helpers *)

Definition ESC : ascii := ascii_of_nat 27.
Definition GREEN : str := ESC :: "[92m".
Definition RED : str := ESC :: "[91m".
Definition RESET : str := ESC :: "[0m".
Definition BOLD : str := ESC :: "[1m".

(** Characters of the report above the 8-bit range, as UTF-8 bytes. *)
Definition CHECK_MARK : str := map ascii_of_nat [226; 156; 133].
Definition CROSS_MARK : str := map ascii_of_nat [226; 157; 140].
Definition EM_DASH : str := map ascii_of_nat [226; 128; 148].
Definition BOX_LINE : str := map ascii_of_nat [226; 148; 128].

Definition DQUOTE : ascii := ascii_of_nat 34.
Definition SQUOTE : ascii := ascii_of_nat 39.

Definition tick (msg : str) : str :=
  GREEN ++ CHECK_MARK ++ RESET ++ "  " ++ msg.

Definition cross (msg fix' : str) : str :=
  let line := RED ++ CROSS_MARK ++ RESET ++ "  " ++ msg in
  if truthy fix'
  then line ++ [NL] ++ "      " ++ RED ++ "Fix:" ++ RESET ++ " " ++ fix'
  else line.

(** The pattern [[a-z0-9]+(-[a-z0-9]+)*] of [is_kebab_case], matched
    with [re.fullmatch]. *)
Definition kebab_re : regex :=
  Cat (Plus (Cls lower_alnum))
      (Rep true (Grp 1 (Cat (Chr "-") (Plus (Cls lower_alnum))))).

Definition is_kebab_case (name : str) : bool :=
  match fullmatch kebab_re name with
  | Some _ => true
  | None => false
  end.

Definition word_count (text : str) : nat := length (split_ws text).

Definition count_chars_excluding_frontmatter (text : str) : str * str :=
  if startswith "---" text then
    match find "---" text 3 with
    | Some e =>
        let frontmatter := strip (firstn (e - 3) (skipn 3 text)) in
        let body := strip (skipn (e + 3) text) in
        (frontmatter, body)
    | None => ([], text)
    end
  else ([], text).

(** ** The operating system, as far as the validator looks at it

    [abspath] is total: the process has a working directory.
    [listdir] and [read_text] give [None] where Python raises
    ([OSError], [UnicodeDecodeError]).

    [can_print w done t]: a call of [print] on the text [t], after the
    texts [done] have been printed, returns.  Where it is false the
    call raises: [UnicodeEncodeError] for a character that the encoding
    of the standard output does not have, [OSError] for a stream that
    takes no more.

    [can_flush w out]: the interpreter's flush of the standard output
    at the end of the process, after the texts [out] have been printed,
    succeeds. *)

Record World : Type := MkWorld {
  abspath : str -> str;
  isdir : str -> bool;
  listdir : str -> option (list str);
  read_text : str -> option str;
  can_print : list str -> str -> bool;
  can_flush : list str -> bool
}.

(** [os.path.basename] *)
Definition basename (p : str) : str := last (split_on "/" p) [].

(** [os.path.join(a, b)] for a relative [b]. *)
Definition path_join (a b : str) : str :=
  match rev a with
  | [] => b
  | c :: _ => if Ascii.eqb c "/" then a ++ b else a ++ "/" ++ b
  end.

(** ** Checks *)

(** The pattern [^---\s*\n(.*?)\n---] under [re.DOTALL | re.MULTILINE]. *)
Definition closing_re : regex :=
  Seq [Bol; Lit "---"; Rep true (Cls isspace); Chr NL;
       Grp 1 (Rep false (Cls any_char)); Chr NL; Lit "---"].

(** The pattern [^name:\s*(.+)$] under [re.MULTILINE]. *)
Definition name_re : regex :=
  Seq [Bol; Lit "name:"; Rep true (Cls isspace);
       Grp 1 (Plus (Cls not_nl)); Eol].

(** A continuation line of the description: a newline, two spaces and
    the rest of the line. *)
Definition cont_re : regex :=
  Seq [Chr NL; Lit "  "; Rep true (Cls not_nl)].

(** The pattern of the description under [re.MULTILINE]: the key
    [^description:], then [\s*], then group 1, which is [.*] followed by
    any number of continuation lines, each a newline, two spaces and [.*]. *)
Definition desc_re : regex :=
  Seq [Bol; Lit "description:"; Rep true (Cls isspace);
       Grp 1 (Cat (Rep true (Cls not_nl)) (Rep true cont_re))].

(** The pattern [[<>]]. *)
Definition angle_re : regex := Cls (in_chars "<>").

Definition has_match (r : regex) (s : str) : bool :=
  match search r s with
  | Some _ => true
  | None => false
  end.

(** Rule 5: the frontmatter delimiters. *)
Definition fm_valid (raw : str) : bool :=
  let has_open_delim := startswith "---" (lstrip raw) in
  let closing_match := search closing_re raw in
  has_open_delim && match closing_match with Some _ => true | None => false end.

(** The name parsed from the frontmatter. *)
Definition name_value_of (frontmatter_raw : str) : str :=
  match search name_re frontmatter_raw with
  | Some name_match =>
      strip_by (in_chars [DQUOTE; SQUOTE]) (strip (group 1 name_match))
  | None => []
  end.

(** The body of the loop over the lines of the matched description. *)
Definition clean_desc_line (line : str) : str :=
  let line := strip line in
  if startswith "description:" line
  then strip (lstrip_by (in_chars ">|")
                        (strip (skipn (length "description:") line)))
  else line.

(** The description parsed from the frontmatter. *)
Definition desc_value_of (frontmatter_raw : str) : str :=
  match search desc_re frontmatter_raw with
  | Some desc_match =>
      let raw_desc := group0 desc_match in
      let desc_lines := split_on NL raw_desc in
      let cleaned := map clean_desc_line desc_lines in
      join " " (filter truthy cleaned)
  | None => []
  end.

(** The first of the reserved words claude and anthropic that occurs in
    the lower-cased name, [None] when neither does. *)
Definition reserved_found (name_value : str) : option str :=
  List.find (fun r : str => contains r (lower name_value))
            [("claude" : str); ("anthropic" : str)].

Definition names_readme (e : str) : bool := str_eqb (lower e) "readme.md".

(** The result each content rule appends, from what it looks at. *)

(** 3. No README.md inside folder *)
Definition rule3 (entries : list str) : CheckResult :=
  let has_readme := existsb names_readme entries in
  MkCheck "No README.md inside skill folder" (negb has_readme) []
    ("Remove README.md from the skill folder. "
     ++ "A repo-level README is fine, but not inside the skill directory.").

(** 4. Folder name is kebab-case *)
Definition rule4 (folder_name : str) : CheckResult :=
  let folder_ok := is_kebab_case folder_name in
  MkCheck ("Folder name is kebab-case: " ++ folder_name) folder_ok []
    "Rename the folder using only lowercase letters and hyphens (e.g., 'my-skill').".

(** 5. Frontmatter delimiters present *)
Definition rule5 (raw : str) : CheckResult :=
  MkCheck "YAML frontmatter has --- delimiters" (fm_valid raw) []
    "Wrap your frontmatter with --- at the top and --- on a new line after the fields.".

(** 6. name field is present *)
Definition rule6 (name_value : str) : CheckResult :=
  MkCheck "name field is present in frontmatter" (truthy name_value) []
    "Add 'name: your-skill-name' to the YAML frontmatter.".

(** 7. name is kebab-case *)
Definition rule7 (name_value : str) : CheckResult :=
  let name_kebab_ok := is_kebab_case name_value in
  MkCheck ("name is valid kebab-case: " ++ name_value) name_kebab_ok []
    "Use only lowercase letters and hyphens in the name field.".

(** 8. name matches folder name *)
Definition rule8 (name_value folder_name : str) : CheckResult :=
  let names_match := str_eqb name_value folder_name in
  MkCheck ("name field matches folder name (" ++ name_value ++ " == "
           ++ folder_name ++ ")")
    names_match []
    ("Either rename the folder to '" ++ name_value
     ++ "' or update the name field to '" ++ folder_name ++ "'.").

(** 9. name has no reserved keywords; the remediation text formats
    [None] as Python does when nothing was found. *)
Definition rule9 (name_value : str) : CheckResult :=
  let found := reserved_found name_value in
  MkCheck "name contains no reserved keywords (claude, anthropic)"
    (match found with None => true | Some _ => false end) []
    ("Remove '" ++ match found with Some r => r | None => "None" end
     ++ "' from the skill name " ++ EM_DASH
     ++ " these are reserved by Anthropic.").

(** 10. description field is present *)
Definition rule10 (desc_value : str) : CheckResult :=
  MkCheck "description field is present" (truthy desc_value) []
    "Add a description field to the YAML frontmatter.".

(** 11. description length <= 1024 chars *)
Definition rule11 (desc_value : str) : CheckResult :=
  let desc_len := length desc_value in
  let desc_len_ok := desc_len <=? 1024 in
  MkCheck ("description length: " ++ str_of_nat desc_len
           ++ " chars (limit: 1024)")
    desc_len_ok []
    ("Shorten the description by "
     ++ str_of_Z (Z.of_nat desc_len - 1024) ++ " characters.").

(** 12. description has no XML tags *)
Definition rule12 (desc_value : str) : CheckResult :=
  let xml_in_desc := has_match angle_re desc_value in
  MkCheck "description contains no XML angle brackets < >"
    (negb xml_in_desc) []
    "Remove all < and > characters from the description (security restriction).".

(** 13. description contains trigger signal *)
Definition trigger_signals : list str :=
  [("use when" : str); ("use for" : str); ("trigger" : str);
   ("activate" : str)].

Definition rule13 (desc_value : str) : CheckResult :=
  let has_trigger :=
    existsb (fun sig : str => contains sig (lower desc_value))
            trigger_signals in
  MkCheck "description contains trigger signal ('Use when', 'Use for', etc.)"
    has_trigger []
    "Add 'Use when user asks to [action]' or similar trigger condition to the description.".

(** 14. No XML tags anywhere in the full file *)
Definition rule14 (body : str) : CheckResult :=
  let xml_in_body := has_match angle_re body in
  MkCheck "No XML angle brackets < > in SKILL.md body" (negb xml_in_body) []
    "Remove all < and > characters from the skill body (security restriction).".

(** 15. Word count under 5000 *)
Definition rule15 (raw : str) : CheckResult :=
  let wc := word_count raw in
  MkCheck ("Word count: " ++ str_of_nat wc ++ " words (limit: 5000)")
    (wc <=? 5000) []
    "Move detailed documentation to a references/ file and link to it from SKILL.md.".

(** The content rules 3 to 15, run in this order once the manifest has
    been read; rules 7 to 9 and 11 to 13 append a result only under
    their [if]. *)
Definition content_checks (entries : list str) (folder_name raw : str)
  : list CheckResult :=
  let '(frontmatter_raw, body) := count_chars_excluding_frontmatter raw in
  let folder_ok := is_kebab_case folder_name in
  let name_value := name_value_of frontmatter_raw in
  let desc_value := desc_value_of frontmatter_raw in
  [rule3 entries; rule4 folder_name; rule5 raw; rule6 name_value]
  ++ (if truthy name_value then [rule7 name_value] else [])
  ++ (if truthy name_value && folder_ok
      then [rule8 name_value folder_name] else [])
  ++ (if truthy name_value then [rule9 name_value] else [])
  ++ [rule10 desc_value]
  ++ (if truthy desc_value then [rule11 desc_value] else [])
  ++ (if truthy desc_value then [rule12 desc_value] else [])
  ++ (if truthy desc_value then [rule13 desc_value] else [])
  ++ [rule14 body; rule15 raw].

(** Rule 1, failed. *)
Definition no_directory (skill_dir : str) : CheckResult :=
  MkCheck "Skill directory exists" false
    ("'" ++ skill_dir ++ "' is not a directory or does not exist.")
    "Check the path and try again.".

(** Rule 2, failed. *)
Definition no_manifest (entries : list str) : CheckResult :=
  let wrong_case :=
    filter (fun e : str => str_eqb (lower e) "skill.md"
                           && negb (str_eqb e "SKILL.md")) entries in
  let detail :=
    match wrong_case with
    | e :: _ => "Found '" ++ e ++ "' instead."
    | [] => "SKILL.md not found." : str
    end in
  MkCheck "SKILL.md found (exact case)" false detail
    "Rename the file to exactly 'SKILL.md' (case-sensitive).".

(** [run_checks]; [None] when reading the folder or the manifest
    raises. *)
Definition run_checks (w : World) (skill_dir : str)
  : option (list CheckResult) :=
  let skill_dir := abspath w skill_dir in
  let folder_name := basename skill_dir in
  (* 1. Folder exists *)
  if negb (isdir w skill_dir) then Some [no_directory skill_dir]
  else
    let results := [MkCheck "Skill directory exists" true skill_dir []] in
    (* 2. SKILL.md exists (exact case) *)
    match listdir w skill_dir with
    | None => None
    | Some entries =>
        let skill_md_matches :=
          filter (fun e : str => str_eqb e "SKILL.md") entries in
        match skill_md_matches with
        | [] => Some (results ++ [no_manifest entries])
        | _ :: _ =>
            let results :=
              results ++ [MkCheck "SKILL.md found (exact case)" true [] []] in
            let skill_md_path := path_join skill_dir "SKILL.md" in
            match read_text w skill_md_path with
            | None => None
            | Some raw =>
                Some (results ++ content_checks entries folder_name raw)
            end
        end
    end.

(** ** Reporter *)

Definition report_line (r : CheckResult) : str :=
  if passed r then
    tick (label r)
    ++ (if truthy (detail r) then "  (" ++ detail r ++ ")" else [])
  else
    let msg :=
      if truthy (detail r) then label r ++ " " ++ EM_DASH ++ " " ++ detail r
      else label r in
    cross msg (fix_ r).

(** The loop of [print_report]: the lines printed and the failures
    counted, from the count so far. *)
Fixpoint report_loop (results : list CheckResult) (failures : nat)
  : list str * nat :=
  match results with
  | [] => ([], failures)
  | r :: rest =>
      let failures' := if passed r then failures else failures + 1 in
      let '(out, n) := report_loop rest failures' in
      (report_line r :: out, n)
  end.

Definition rule_line : str := concat (repeat BOX_LINE 55).

(** [print_report]: the texts handed to [print], one element for each
    call and in the order of the calls, and the count returned once
    every call has returned.  [main] below runs the calls, of which
    each one can raise. *)
Definition print_report (w : World) (results : list CheckResult)
  (skill_dir : str) : list str * nat :=
  let folder_name := basename (abspath w skill_dir) in
  let head :=
    [[NL] ++ BOLD ++ "Skill Validation Report " ++ EM_DASH ++ " "
       ++ folder_name ++ RESET; rule_line] in
  let '(lines, failures) := report_loop results 0 in
  let total := length results in
  let verdict :=
    if failures =? 0 then
      [NL] ++ GREEN ++ BOLD ++ CHECK_MARK ++ "  All " ++ str_of_nat total
        ++ " checks passed. Skill is ready for upload." ++ RESET ++ [NL]
    else
      [NL] ++ RED ++ BOLD ++ CROSS_MARK ++ "  " ++ str_of_nat failures
        ++ " of " ++ str_of_nat total ++ " checks failed. "
        ++ "Fix the errors above before uploading." ++ RESET ++ [NL] in
  (head ++ lines ++ [rule_line; verdict], failures).

(** ** Entry point *)

(** The docstring of the module, printed as the usage. *)
Definition usage_doc : str :=
  [NL] ++ join [NL]
    [("validate_skill.py" : str);
     ("-----------------" : str);
     ("Runs all technical checks on a Claude skill folder before upload." : str);
     ("Reports pass/fail for every rule and exits with code 1 if any check fails." : str);
     ([] : str);
     ("Usage:" : str);
     ("    python validate_skill.py <path-to-skill-folder>" : str);
     ([] : str);
     ("Examples:" : str);
     ("    python validate_skill.py ./skills/sprint-planner/" : str);
     ("    python validate_skill.py ./my-skill/" : str)]
  ++ [NL].

(** How a run of the process ends: the texts that [print] has taken,
    and the exit status. *)
Record Exit : Type := MkExit {
  stdout : list str;
  status : nat
}.

(** Calls of [print] one after the other, after the texts [done]: the
    texts printed in all, and whether every call returned.  The first
    call that raises ends the sequence. *)
Fixpoint emit (w : World) (done texts : list str) : list str * bool :=
  match texts with
  | [] => (done, true)
  | t :: rest =>
      if can_print w done t then emit w (done ++ [t]) rest
      else (done, false)
  end.

(** The interpreter's flush of the standard output at the end of the
    process.  Nothing is flushed when nothing was printed. *)
Definition flushed (w : World) (out : list str) : bool :=
  match out with
  | [] => true
  | _ :: _ => can_flush w out
  end.

(** The end of the process with the status [code], which is that of
    [sys.exit], or 1 after an exception that nothing caught.  Where
    the flush fails the status is 120, whatever [code] is. *)
Definition exit_process (w : World) (out : list str) (code : nat) : Exit :=
  MkExit out (if flushed w out then code else 120).

(** [main]; [argv] is [sys.argv], the script's name first.  An
    exception of [run_checks] or of a call of [print] ends the run
    where it is raised. *)
Definition main (w : World) (argv : list str) : Exit :=
  if length argv <? 2 then
    let '(out, _) := emit w [] [usage_doc] in
    exit_process w out 1
  else
    let skill_dir := nth 1 argv [] in
    match run_checks w skill_dir with
    | None => exit_process w [] 1
    | Some results =>
        let '(texts, failures) := print_report w results skill_dir in
        let '(out, returned) := emit w [] texts in
        exit_process w out
          (if returned then (if 0 <? failures then 1 else 0) else 1)
    end.

(** ** What the expressions match

    [lang r prev m t]: the expression [r] matches the text [m] when the
    character before [m] is [prev] and the text after it is [t].  The
    two contexts are what the anchors look at. *)

Fixpoint after (prev : option ascii) (m : str) : option ascii :=
  match m with
  | [] => prev
  | c :: m' => after (Some c) m'
  end.

Inductive lang : regex -> option ascii -> str -> str -> Prop :=
| L_Emp : forall p t, lang Emp p [] t
| L_Chr : forall c p t, lang (Chr c) p [c] t
| L_Cls : forall f c p t, f c = true -> lang (Cls f) p [c] t
| L_Bol : forall p t, at_bol p = true -> lang Bol p [] t
| L_Eol : forall p t, at_eol t = true -> lang Eol p [] t
| L_Cat : forall r1 r2 p m1 m2 t,
    lang r1 p m1 (m2 ++ t) -> lang r2 (after p m1) m2 t ->
    lang (Cat r1 r2) p (m1 ++ m2) t
| L_Rep0 : forall gr r p t, lang (Rep gr r) p [] t
| L_RepS : forall gr r p m1 m2 t,
    m1 <> [] -> lang r p m1 (m2 ++ t) ->
    lang (Rep gr r) (after p m1) m2 t ->
    lang (Rep gr r) p (m1 ++ m2) t
| L_Grp : forall n r p m t, lang r p m t -> lang (Grp n r) p m t.

(** ** Kebab case, as the specification words it

    One or more segments of lower-case letters and digits, joined by
    single hyphens. *)

Definition segment (seg : str) : Prop :=
  seg <> [] /\ forallb lower_alnum seg = true.

Definition kebab_segments (s : str) : Prop :=
  exists segs : list str,
    segs <> [] /\ Forall segment segs /\ s = join "-" segs.

Definition is_upper (c : ascii) : bool :=
  (65 <=? code c) && (code c <=? 90).

Definition endswith (p s : str) : bool := startswith (rev p) (rev s).

(** A one-pass reading of the kebab-case pattern, used to derive its
    consequences: [ok] tells whether the text may end here, that is,
    whether the character before was a letter or a digit. *)
Fixpoint kebab_scan (ok : bool) (s : str) : bool :=
  match s with
  | [] => ok
  | c :: s' =>
      if lower_alnum c then kebab_scan true s'
      else if Ascii.eqb c "-" then ok && kebab_scan false s'
      else false
  end.

(** The number of results that did not pass. *)
Definition failed_count (results : list CheckResult) : nat :=
  length (filter (fun r => negb (passed r)) results).

(** The results of rules 1 and 2 when they pass. *)
Definition directory_found (skill_dir : str) : CheckResult :=
  MkCheck "Skill directory exists" true skill_dir [].

Definition manifest_found : CheckResult :=
  MkCheck "SKILL.md found (exact case)" true [] [].

(** ** Whitespace-delimited tokens, as the specification words them

    [tokenized s toks]: the text [s] is the tokens [toks], in order,
    each a non-empty run of characters that are not whitespace, set
    apart by whitespace and with nothing else around them. *)

Definition all_space (s : str) : Prop := forallb isspace s = true.

Definition token (t : str) : Prop :=
  t <> [] /\ forallb (fun c => negb (isspace c)) t = true.

Inductive tokenized : str -> list str -> Prop :=
| T_none : forall ws, all_space ws -> tokenized ws []
| T_last : forall ws t, all_space ws -> token t -> tokenized (ws ++ t) [t]
| T_more : forall ws t c rest toks,
    all_space ws -> token t -> isspace c = true ->
    tokenized (c :: rest) toks ->
    tokenized (ws ++ t ++ c :: rest) (t :: toks).

(** A manifest with the given name and a short description, for the
    examples. *)
Definition manifest_named (name : str) : str :=
  "---" ++ [NL] ++ "name: " ++ name ++ [NL]
  ++ "description: Use when the user asks for a plan." ++ [NL]
  ++ "---" ++ [NL] ++ "Body." ++ [NL].

Definition label9 : str :=
  "name contains no reserved keywords (claude, anthropic)".

(** A manifest with the given one-line description, for the examples. *)
Definition manifest_described (desc : str) : str :=
  "---" ++ [NL] ++ "name: my-skill" ++ [NL]
  ++ "description: " ++ desc ++ [NL]
  ++ "---" ++ [NL] ++ "Body." ++ [NL].

(** ** Rule 5, as the specification words it

    The document, trimmed of leading whitespace, starts with the
    delimiter, and a closing delimiter line exists after at least one
    line of content. *)
Definition fm_delimited (raw : str) : bool :=
  let t := lstrip raw in
  startswith "---" t &&
  match split_on NL t with
  | _opening :: _content :: later => existsb (startswith "---") later
  | _ => false
  end.

(** A document whose opening delimiter is indented by one space. *)
Definition indented_manifest : str :=
  " ---" ++ [NL] ++ "name: my-skill" ++ [NL] ++ "---".

(** ** Frontmatter text, line by line *)

(** Lines, each closed by a newline. *)
Definition unlines (lines : list str) : str :=
  concat (map (fun l : str => l ++ [NL]) lines).

(** The continuation lines of a block: each a newline, the two spaces
    of the indentation and the text of the line. *)
Definition continuation (conts : list str) : str :=
  concat (map (fun l : str => NL :: "  " ++ l) conts).

(** Lines of one piece that do not start with the key [k]. *)
Definition other_line (k l : str) : Prop :=
  ~ In NL l /\ startswith k l = false.

(** The text after a value: nothing, or a newline. *)
Definition ends_line (post : str) : Prop :=
  match post with
  | [] => True
  | c :: _ => c = NL
  end.

(** The text after a block: nothing, or a newline and a line that is
    not indented by two spaces. *)
Definition ends_block (post : str) : Prop :=
  match post with
  | [] => True
  | c :: post' => c = NL /\ startswith "  " post' = false
  end.

(** [first_match r prev s g q]: the first way the backtracking matcher
    finds to match [r] at this position ends at [q]. *)
Definition first_match (r : regex) (prev : option ascii) (s : str)
  (g : captures) (q : pos) : Prop :=
  exists tl, run r prev s g = q :: tl.

(** A value that starts with a character that is not whitespace. *)
Definition starts_nonspace (v : str) : Prop :=
  match v with
  | [] => False
  | c :: _ => isspace c = false
  end.

(** A manifest whose description is a folded block. *)
Definition block_manifest : str :=
  "---" ++ [NL] ++ "name: " ++ [DQUOTE] ++ "my-skill" ++ [DQUOTE] ++ [NL]
  ++ "description: >" ++ [NL]
  ++ "  Use when the user" ++ [NL]
  ++ "  asks for a plan." ++ [NL]
  ++ "metadata:" ++ [NL] ++ "  author: me" ++ [NL]
  ++ "---" ++ [NL] ++ "Body." ++ [NL].

(** ** The scaffolder

    Modelled from the spec: the scaffolding tool, whose source is not
    part of the files at hand.  Its arguments, its plan (a mapping from
    target path to literal content or to the null marker of an empty
    placeholder), the refusal when the target directory exists and the
    dry run that only plans and previews are taken from sections 3, 4.3
    and 6 of the specification.  The manifest template and the name of
    the placeholder file are not given there and are parameters. *)

Record ScaffoldArgs : Type := MkScaffoldArgs {
  sc_name : str;
  sc_author : str;
  sc_category : str;
  sc_tags : str;
  sc_scripts : bool;
  sc_references : bool;
  sc_assets : bool;
  sc_output : str;
  sc_dry_run : bool
}.

(** What the specification leaves open. *)
Record ScaffoldEnv : Type := MkScaffoldEnv {
  fill_template : ScaffoldArgs -> str;
  placeholder : str
}.

Definition ScaffoldPlan : Type := list (str * option str).

(** The disk: the directories and the files with their content. *)
Record Disk : Type := MkDisk {
  directories : list str;
  files : list (str * str)
}.

Inductive ScaffoldOutcome : Type :=
| Previewed
| Created
| InvalidName
| ReservedName
| TargetExists.

(** The stricter name check of the scaffolder: kebab case, and no
    reserved word at the start or as a hyphen-delimited segment. *)
Definition reserved_segment (name : str) : bool :=
  existsb (fun r : str =>
             startswith r name || existsb (str_eqb r) (split_on "-" name))
          [("claude" : str); ("anthropic" : str)].

Definition target_dir (args : ScaffoldArgs) : str :=
  path_join (sc_output args) (sc_name args).

Definition optional_dirs (args : ScaffoldArgs) : list str :=
  (if sc_scripts args then [("scripts" : str)] else [])
  ++ (if sc_references args then [("references" : str)] else [])
  ++ (if sc_assets args then [("assets" : str)] else []).

Definition scaffold_plan (env : ScaffoldEnv) (args : ScaffoldArgs)
  : ScaffoldPlan :=
  (path_join (target_dir args) "SKILL.md", Some (fill_template env args))
  :: map (fun d : str =>
            (path_join (path_join (target_dir args) d) (placeholder env),
             None))
         (optional_dirs args).

(** [os.path.dirname] of a joined path. *)
Definition dirname (p : str) : str :=
  rev (tl (lstrip_by (fun c => negb (Ascii.eqb c "/")) (rev p))).

(** Writing one planned file: its directory is made, then the file. *)
Definition write_planned (d : Disk) (entry : str * option str) : Disk :=
  let '(path, content) := entry in
  MkDisk (dirname path :: directories d)
         ((path, match content with Some c => c | None => [] end)
          :: files d).

Definition materialize (plan : ScaffoldPlan) (d : Disk) : Disk :=
  fold_left write_planned plan d.

Definition preview (plan : ScaffoldPlan) : list str := map fst plan.

(** A run of the scaffolder: how it ended, the disk it leaves and what
    it printed. *)
Definition scaffold (env : ScaffoldEnv) (args : ScaffoldArgs) (d : Disk)
  : ScaffoldOutcome * Disk * list str :=
  if negb (is_kebab_case (sc_name args)) then (InvalidName, d, [])
  else if reserved_segment (sc_name args) then (ReservedName, d, [])
  else
    let plan := scaffold_plan env args in
    if sc_dry_run args then (Previewed, d, preview plan)
    else if existsb (str_eqb (target_dir args)) (directories d)
    then (TargetExists, d, [])
    else (Created, materialize plan d, preview plan).

(** The requests of optional directories, for the examples. *)
Definition dry_run_args : ScaffoldArgs :=
  MkScaffoldArgs "my-skill" "me" "general" "a, b" true true true "skills"
                 true.

Definition plain_env : ScaffoldEnv :=
  MkScaffoldEnv (fun args => "---" ++ [NL] ++ "name: " ++ sc_name args)
                ".gitkeep".

(** ** The description, as the specification words it

    The value is taken from the line of the key and from the
    continuation lines, which are the lines after it that are indented
    by exactly two spaces: the block indicator is stripped from the
    front of the first line, and the lines are joined by single
    spaces. *)

Definition indented_by_two (l : str) : bool :=
  startswith "  " l && negb (startswith "   " l).

Fixpoint take_while {A : Type} (f : A -> bool) (l : list A) : list A :=
  match l with
  | [] => []
  | x :: l' => if f x then x :: take_while f l' else []
  end.

Fixpoint drop_while {A : Type} (f : A -> bool) (l : list A) : list A :=
  match l with
  | [] => []
  | x :: l' => if f x then drop_while f l' else l
  end.

Definition description_as_worded (frontmatter_raw : str) : str :=
  match drop_while (fun l : str => negb (startswith "description:" l))
                   (split_on NL frontmatter_raw) with
  | [] => []
  | l :: rest =>
      let first :=
        lstrip_by (in_chars ">|")
                  (strip (skipn (length "description:") l)) in
      join " " (filter truthy
                  (map strip (first :: take_while indented_by_two rest)))
  end.

(** A frontmatter whose block has a line indented by four spaces, and
    one whose continuation line starts with the key again. *)
Definition deep_block : str :=
  "description: |" ++ [NL] ++ "    four spaces" ++ [NL] ++ "  two spaces".

Definition key_in_block : str :=
  "description: a" ++ [NL] ++ "  description: foo".

(** ** Worlds for the examples *)

(** A standard output that takes the characters of ASCII only. *)
Definition is_ascii (t : str) : bool :=
  forallb (fun c : ascii => nat_of_ascii c <? 128) t.

(** Every path under [/home/u/] is a directory that lists SKILL.md and
    nothing else.  Reading the manifest gives [raw], and raises when
    [raw] is [None]; [print] takes the texts that [prints] accepts, and
    the flush at the end succeeds. *)
Definition skill_folder (raw : option str) (prints : str -> bool) : World :=
  MkWorld (fun p => "/home/u/" ++ p) (fun _ => true)
          (fun _ => Some ["SKILL.md" : str]) (fun _ => raw)
          (fun _ => prints) (fun _ => true).

(** * Properties *)

(** ** Strings *)

Lemma startswith_app (p t : str) : startswith p (p ++ t) = true.
Proof.
  induction p as [|a p IH]; simpl; [reflexivity|].
  now rewrite Ascii.eqb_refl.
Qed.

Lemma startswith_inv (p s : str) :
  startswith p s = true -> exists t, s = p ++ t.
Proof.
  revert s; induction p as [|a p IH]; intros s H; simpl in *.
  - now exists s.
  - destruct s as [|b s]; [discriminate|].
    apply andb_true_iff in H as [Hab Hp].
    apply Ascii.eqb_eq in Hab; subst b.
    destruct (IH _ Hp) as [t ->]. now exists t.
Qed.

Lemma startswith_iff (p s : str) :
  startswith p s = true <-> exists t, s = p ++ t.
Proof.
  split; [apply startswith_inv|].
  intros [t ->]; apply startswith_app.
Qed.

Lemma contains_here (sub s : str) :
  startswith sub s = true -> contains sub s = true.
Proof.
  intros H. destruct s; simpl; rewrite H; reflexivity.
Qed.

Lemma contains_iff (sub s : str) :
  contains sub s = true <-> exists a b, s = a ++ sub ++ b.
Proof.
  split.
  - induction s as [|c s IH]; simpl; intros H.
    + rewrite orb_false_r in H. apply startswith_inv in H as [t Ht].
      now exists [], t.
    + apply orb_true_iff in H as [H|H].
      * apply startswith_inv in H as [t Ht]. now exists [], t.
      * destruct (IH H) as (a & b & ->). now exists (c :: a), b.
  - intros (a & b & ->). induction a as [|c a IH].
    + apply contains_here. simpl app. apply startswith_app.
    + simpl. simpl in IH. rewrite IH. apply orb_true_r.
Qed.

Lemma after_app (p : option ascii) (a b : str) :
  after p (a ++ b) = after (after p a) b.
Proof.
  revert p; induction a as [|c a IH]; intros p; simpl; [reflexivity|].
  apply IH.
Qed.

(** ** The matcher against the language *)

Lemma flat_map_nil {A B : Type} (f : A -> list B) (l : list A) :
  (forall x, In x l -> f x = []) -> flat_map f l = [].
Proof.
  induction l as [|x l IH]; simpl; intros H; [reflexivity|].
  rewrite (H x (or_introl eq_refl)), IH; [reflexivity|].
  intros y Hy; apply H; now right.
Qed.

Lemma flat_map_ext_in {A B : Type} (f g : A -> list B) (l : list A) :
  (forall x, In x l -> f x = g x) -> flat_map f l = flat_map g l.
Proof.
  induction l as [|x l IH]; simpl; intros H; [reflexivity|].
  rewrite (H x (or_introl eq_refl)), IH; [reflexivity|].
  intros y Hy; apply H; now right.
Qed.

(** Fuel beyond the length of the text changes nothing. *)
Lemma rep_loop_fuel step gr : forall f1 f2 prev s g,
  length s <= f1 -> length s <= f2 ->
  rep_loop step gr f1 prev s g = rep_loop step gr f2 prev s g.
Proof.
  induction f1 as [|f1 IH]; intros f2 prev s g H1 H2.
  - destruct s; [|simpl in H1; lia].
    destruct f2 as [|f2]; [reflexivity|]. simpl.
    rewrite flat_map_nil; [now destruct gr|].
    intros [[p' s'] g'] _. reflexivity.
  - destruct f2 as [|f2].
    + destruct s; [|simpl in H2; lia]. simpl.
      rewrite flat_map_nil; [now destruct gr|].
      intros [[p' s'] g'] _. reflexivity.
    + simpl.
      rewrite (flat_map_ext_in
                 (fun q : pos => let '(p', s', g') := q in
                    if length s' <? length s
                    then rep_loop step gr f1 p' s' g' else [])
                 (fun q : pos => let '(p', s', g') := q in
                    if length s' <? length s
                    then rep_loop step gr f2 p' s' g' else [])); [reflexivity|].
      intros [[p' s'] g'] _.
      destruct (length s' <? length s) eqn:E; [|reflexivity].
      apply Nat.ltb_lt in E. apply IH; lia.
Qed.

Lemma rep_loop_In step gr fuel prev s g q :
  In q (rep_loop step gr (S fuel) prev s g) <->
  q = (prev, s, g) \/
  exists p' s' g', In (p', s', g') (step prev s g) /\
                   length s' < length s /\
                   In q (rep_loop step gr fuel p' s' g').
Proof.
  simpl.
  assert (E : forall l : list pos,
    In q (flat_map (fun q0 : pos => let '(p', s', g') := q0 in
            if length s' <? length s
            then rep_loop step gr fuel p' s' g' else []) l) <->
    exists p' s' g', In (p', s', g') l /\ length s' < length s /\
                     In q (rep_loop step gr fuel p' s' g')).
  { intros l. rewrite in_flat_map. split.
    - intros [[[p' s'] g'] [Hin Hq]].
      destruct (length s' <? length s) eqn:E; [|contradiction].
      apply Nat.ltb_lt in E. now exists p', s', g'.
    - intros (p' & s' & g' & Hin & Hlt & Hq).
      exists (p', s', g'). split; [assumption|].
      apply Nat.ltb_lt in Hlt. now rewrite Hlt. }
  destruct gr.
  - rewrite in_app_iff, E. simpl. intuition.
  - simpl. rewrite E. intuition.
Qed.

Lemma run_sound : forall r prev s g p' s' g',
  In (p', s', g') (run r prev s g) ->
  exists m, s = m ++ s' /\ lang r prev m s' /\ p' = after prev m.
Proof.
  induction r as [|c|f| | |r1 IH1 r2 IH2|gr r IH|n r IH];
    intros prev s g p' s' g' H; simpl in H.
  - destruct H as [H|[]]. inversion H; subst.
    exists []. repeat split. constructor.
  - destruct s as [|x s]; [contradiction|].
    destruct (Ascii.eqb x c) eqn:E; [|contradiction].
    apply Ascii.eqb_eq in E; subst x.
    destruct H as [H|[]]. inversion H; subst.
    exists [c]. repeat split. constructor.
  - destruct s as [|x s]; [contradiction|].
    destruct (f x) eqn:E; [|contradiction].
    destruct H as [H|[]]. inversion H; subst.
    exists [x]. repeat split. now constructor.
  - destruct (at_bol prev) eqn:E; [|contradiction].
    destruct H as [H|[]]. inversion H; subst.
    exists []. repeat split. now constructor.
  - destruct (at_eol s) eqn:E; [|contradiction].
    destruct H as [H|[]]. inversion H; subst.
    exists []. repeat split. now constructor.
  - apply in_flat_map in H as [[[p1 s1] g1] [H1 H2]].
    destruct (IH1 _ _ _ _ _ _ H1) as (m1 & -> & L1 & ->).
    destruct (IH2 _ _ _ _ _ _ H2) as (m2 & -> & L2 & ->).
    exists (m1 ++ m2). rewrite app_assoc, after_app.
    repeat split. now constructor.
  - remember (length s) as fuel eqn:Hf.
    assert (Hle : length s <= fuel) by lia. clear Hf.
    revert prev s g Hle H.
    induction fuel as [|fuel IHf]; intros prev s g Hle H.
    + destruct H as [H|[]]. inversion H; subst.
      exists []. repeat split. constructor.
    + apply rep_loop_In in H as [H|(p1 & s1 & g1 & H1 & Hlt & H2)].
      * inversion H; subst. exists []. repeat split. constructor.
      * destruct (IH _ _ _ _ _ _ H1) as (m1 & -> & L1 & ->).
        assert (Hle1 : length s1 <= fuel) by lia.
        destruct (IHf _ _ _ Hle1 H2) as (m2 & -> & L2 & ->).
        exists (m1 ++ m2). rewrite app_assoc, after_app.
        repeat split. apply L_RepS; [|assumption..].
        intros ->. simpl in Hlt. lia.
  - apply in_map_iff in H as [[[p1 s1] g1] [E H1]].
    inversion E; subst.
    destruct (IH _ _ _ _ _ _ H1) as (m & -> & L & ->).
    exists m. repeat split. now constructor.
Qed.

Lemma run_complete : forall r prev m t,
  lang r prev m t ->
  forall g, exists g', In (after prev m, t, g') (run r prev (m ++ t) g).
Proof.
  induction 1 as [p t|c p t|f c p t Hf|p t Hb|p t He
                 |r1 r2 p m1 m2 t L1 IH1 L2 IH2
                 |gr r p t
                 |gr r p m1 m2 t Hne L1 IH1 L2 IH2
                 |n r p m t L IH]; intros g; simpl.
  - exists g. now left.
  - rewrite Ascii.eqb_refl. exists g. now left.
  - rewrite Hf. exists g. now left.
  - rewrite Hb. exists g. now left.
  - rewrite He. exists g. now left.
  - destruct (IH1 g) as [g1 H1]. destruct (IH2 g1) as [g2 H2].
    exists g2. rewrite after_app. apply in_flat_map.
    exists (after p m1, m2 ++ t, g1). rewrite <- app_assoc. now split.
  - exists g. destruct (length t); [now left|].
    apply rep_loop_In. now left.
  - destruct (IH1 g) as [g1 H1]. destruct (IH2 g1) as [g2 H2].
    exists g2. rewrite after_app.
    destruct m1 as [|c m1]; [congruence|]. simpl length.
    apply rep_loop_In. right.
    exists (after p (c :: m1)), (m2 ++ t), g1.
    rewrite <- app_assoc in *. split; [exact H1|]. split.
    + simpl. rewrite !length_app. lia.
    + simpl in H2.
      rewrite (rep_loop_fuel _ _ _ (length (m2 ++ t))); [exact H2| |lia].
      simpl. rewrite !length_app. lia.
  - destruct (IH g) as [g1 H1].
    eexists. apply in_map_iff. exists (after p m, t, g1). split; [reflexivity|].
    exact H1.
Qed.

Lemma fullmatch_iff (r : regex) (s : str) :
  (exists g, fullmatch r s = Some g) <-> lang r None s [].
Proof.
  unfold fullmatch. split.
  - intros [g H].
    destruct (filter _ (run r None s [])) as [|q l] eqn:E; [discriminate|].
    assert (Hq : In q (q :: l)) by now left.
    rewrite <- E in Hq. apply filter_In in Hq as [Hin Hnil].
    destruct q as [[p' s'] g']. simpl in Hnil.
    destruct s'; [|discriminate].
    apply run_sound in Hin as (m & -> & L & _).
    now rewrite app_nil_r.
  - intros L. destruct (run_complete _ _ _ _ L []) as [g' Hin].
    rewrite app_nil_r in Hin.
    destruct (filter _ (run r None s [])) as [|q l] eqn:E.
    + assert (Hq : In (after None s, @nil ascii, g')
                      (filter (fun q : pos =>
                                 match snd (fst q) with [] => true | _ => false end)
                              (run r None s []))).
      { apply filter_In. now split. }
      rewrite E in Hq. contradiction.
    + eexists. reflexivity.
Qed.

(** ** Inversion of the language *)

Lemma lang_emp_inv p m t : lang Emp p m t -> m = [].
Proof. intros H; inversion H; reflexivity. Qed.

Lemma lang_chr_inv c p m t : lang (Chr c) p m t -> m = [c].
Proof. intros H; inversion H; reflexivity. Qed.

Lemma lang_cls_inv f p m t :
  lang (Cls f) p m t -> exists c, m = [c] /\ f c = true.
Proof. intros H; inversion H; subst; eauto. Qed.

Lemma lang_bol_inv p m t : lang Bol p m t -> m = [] /\ at_bol p = true.
Proof. intros H; inversion H; subst; auto. Qed.

Lemma lang_eol_inv p m t : lang Eol p m t -> m = [] /\ at_eol t = true.
Proof. intros H; inversion H; subst; auto. Qed.

Lemma lang_cat_inv r1 r2 p m t :
  lang (Cat r1 r2) p m t ->
  exists m1 m2, m = m1 ++ m2 /\ lang r1 p m1 (m2 ++ t) /\
                lang r2 (after p m1) m2 t.
Proof. intros H; inversion H; subst; eauto. Qed.

Lemma lang_grp_inv n r p m t : lang (Grp n r) p m t -> lang r p m t.
Proof. intros H; inversion H; subst; auto. Qed.

Lemma lang_rep_inv gr r p m t :
  lang (Rep gr r) p m t ->
  m = [] \/
  exists m1 m2, m = m1 ++ m2 /\ m1 <> [] /\ lang r p m1 (m2 ++ t) /\
                lang (Rep gr r) (after p m1) m2 t.
Proof.
  intros H; inversion H; subst; [now left|].
  right. eauto 8.
Qed.

(** Induction over the iterations of a repetition. *)
Lemma lang_rep_ind gr r t (P : option ascii -> str -> Prop) :
  (forall p, P p []) ->
  (forall p m1 m2, m1 <> [] -> lang r p m1 (m2 ++ t) ->
                   lang (Rep gr r) (after p m1) m2 t ->
                   P (after p m1) m2 -> P p (m1 ++ m2)) ->
  forall p m, lang (Rep gr r) p m t -> P p m.
Proof.
  intros H0 HS p m H.
  remember (Rep gr r) as R eqn:HR. revert HR.
  induction H as [| | | | | |gr' r' p t|gr' r' p m1 m2 t Hne L1 _ L2 IH2| ];
    intros HR; inversion HR; subst.
  - apply H0.
  - apply HS; auto.
Qed.

(** ** Repetitions of a class *)

Lemma lang_rep_cls gr f p m t :
  lang (Rep gr (Cls f)) p m t <-> forallb f m = true.
Proof.
  split.
  - revert p m. apply lang_rep_ind; [reflexivity|].
    intros p m1 m2 _ L1 _ IH.
    apply lang_cls_inv in L1 as (c & -> & Hc).
    simpl. now rewrite Hc.
  - revert p. induction m as [|c m IH]; intros p H.
    + constructor.
    + simpl in H. apply andb_true_iff in H as [Hc Hm].
      change (c :: m) with ([c] ++ m).
      apply L_RepS; [discriminate| now constructor | now apply IH].
Qed.

Lemma lang_plus_cls f p m t :
  lang (Plus (Cls f)) p m t <-> m <> [] /\ forallb f m = true.
Proof.
  unfold Plus. split.
  - intros H. apply lang_cat_inv in H as (m1 & m2 & -> & L1 & L2).
    apply lang_cls_inv in L1 as (c & -> & Hc).
    apply lang_rep_cls in L2.
    split; [discriminate|]. simpl. now rewrite Hc, L2.
  - intros [Hne H]. destruct m as [|c m]; [congruence|].
    simpl in H. apply andb_true_iff in H as [Hc Hm].
    change (c :: m) with ([c] ++ m).
    constructor; [now constructor|]. now apply lang_rep_cls.
Qed.

(** ** C3: kebab case *)

Lemma join_cons (sep seg : str) (segs : list str) :
  join sep (seg :: segs) = seg ++ concat (map (app sep) segs).
Proof.
  revert seg; induction segs as [|x segs IH]; intros seg.
  - simpl. now rewrite app_nil_r.
  - change (join sep (seg :: x :: segs)) with (seg ++ sep ++ join sep (x :: segs)).
    rewrite IH. simpl. now rewrite <- app_assoc.
Qed.

Lemma lang_kebab_tail p m t :
  lang (Rep true (Grp 1 (Cat (Chr "-") (Plus (Cls lower_alnum))))) p m t <->
  exists segs, Forall segment segs /\ m = concat (map (app ("-" : str)) segs).
Proof.
  split.
  - revert p m. apply lang_rep_ind.
    + intros _. exists []. now split.
    + intros p m1 m2 _ L1 _ (segs & Hsegs & ->).
      apply lang_grp_inv, lang_cat_inv in L1 as (a & seg & -> & La & Lseg).
      apply lang_chr_inv in La as ->.
      apply lang_plus_cls in Lseg as [Hne Hal].
      exists (seg :: segs). split; [constructor; [now split|assumption]|].
      reflexivity.
  - intros (segs & Hsegs & ->). revert p.
    induction Hsegs as [|seg segs [Hne Hal] _ IH]; intros p.
    + constructor.
    + cbn [map concat]. apply L_RepS.
      * discriminate.
      * constructor. apply (L_Cat _ _ _ ["-"%char] seg); [constructor|].
        now apply lang_plus_cls.
      * apply IH.
Qed.

Lemma kebab_lang_iff (s : str) :
  lang kebab_re None s [] <-> kebab_segments s.
Proof.
  unfold kebab_re, kebab_segments. split.
  - intros H. apply lang_cat_inv in H as (seg & m2 & -> & L1 & L2).
    apply lang_plus_cls in L1 as [Hne Hal].
    apply lang_kebab_tail in L2 as (segs & Hsegs & ->).
    exists (seg :: segs). split; [discriminate|]. split.
    + constructor; [now split|assumption].
    + now rewrite join_cons.
  - intros (segs & Hne & Hsegs & ->).
    destruct segs as [|seg segs]; [congruence|].
    inversion Hsegs as [|? ? [Hn Ha] Hrest]; subst.
    rewrite join_cons. constructor.
    + now apply lang_plus_cls.
    + apply lang_kebab_tail. now exists segs.
Qed.

Lemma is_kebab_case_iff (s : str) :
  is_kebab_case s = true <-> kebab_segments s.
Proof.
  rewrite <- kebab_lang_iff, <- fullmatch_iff. unfold is_kebab_case.
  destruct (fullmatch kebab_re s) as [g|]; split; intros H.
  - now exists g.
  - reflexivity.
  - discriminate.
  - destruct H; discriminate.
Qed.

Lemma kebab_scan_segment ok seg rest :
  segment seg -> kebab_scan ok (seg ++ rest) = kebab_scan true rest.
Proof.
  intros [Hne Hal]. revert ok.
  induction seg as [|c seg IH]; intros ok; [congruence|].
  simpl in Hal. apply andb_true_iff in Hal as [Hc Hseg].
  simpl. rewrite Hc. destruct seg as [|d seg]; [reflexivity|].
  apply IH; [discriminate|assumption].
Qed.

Lemma kebab_scan_tail segs :
  Forall segment segs ->
  kebab_scan true (concat (map (app ("-" : str)) segs)) = true.
Proof.
  induction 1 as [|seg segs Hseg _ IH]; [reflexivity|].
  cbn [map concat].
  change (("-" ++ seg) ++ concat (map (app ("-" : str)) segs))
    with ("-"%char :: (seg ++ concat (map (app ("-" : str)) segs))).
  cbn [kebab_scan]. change (lower_alnum "-") with false. cbn.
  now rewrite kebab_scan_segment.
Qed.

Lemma kebab_segments_scan s : kebab_segments s -> kebab_scan false s = true.
Proof.
  intros (segs & Hne & Hsegs & ->).
  destruct segs as [|seg segs]; [congruence|].
  inversion Hsegs; subst.
  rewrite join_cons, kebab_scan_segment by assumption.
  now apply kebab_scan_tail.
Qed.

Lemma kebab_scan_chars ok s :
  kebab_scan ok s = true ->
  Forall (fun c => lower_alnum c = true \/ c = "-"%char) s.
Proof.
  revert ok; induction s as [|c s IH]; intros ok H; [constructor|].
  simpl in H. destruct (lower_alnum c) eqn:Hc.
  - constructor; [now left|]. eapply IH, H.
  - destruct (Ascii.eqb c "-") eqn:E; [|discriminate].
    apply Ascii.eqb_eq in E. apply andb_true_iff in H as [_ H].
    constructor; [now right|]. eapply IH, H.
Qed.

Lemma kebab_scan_double_hyphen a b ok :
  kebab_scan ok (a ++ "--" ++ b) = false.
Proof.
  revert ok; induction a as [|c a IH]; intros ok.
  - cbn. apply andb_false_r.
  - cbn [app kebab_scan]. destruct (lower_alnum c); [apply IH|].
    destruct (Ascii.eqb c "-"); [|reflexivity].
    simpl in IH. rewrite IH. apply andb_false_r.
Qed.

Lemma kebab_scan_trailing_hyphen a ok :
  kebab_scan ok (a ++ "-") = false.
Proof.
  revert ok; induction a as [|c a IH]; intros ok.
  - cbn. apply andb_false_r.
  - cbn [app kebab_scan]. destruct (lower_alnum c); [apply IH|].
    destruct (Ascii.eqb c "-"); [|reflexivity].
    simpl in IH. rewrite IH. apply andb_false_r.
Qed.

Lemma not_kebab s : kebab_scan false s = false -> is_kebab_case s = false.
Proof.
  intros H. destruct (is_kebab_case s) eqn:E; [|reflexivity].
  apply is_kebab_case_iff, kebab_segments_scan in E. congruence.
Qed.

Lemma upper_not_alnum c :
  is_upper c = true -> lower_alnum c = false /\ c <> "-"%char.
Proof.
  unfold is_upper, lower_alnum. intros H.
  apply andb_true_iff in H as [H1 H2].
  apply Nat.leb_le in H1, H2. split.
  - apply orb_false_iff. split; apply andb_false_iff.
    + left. apply Nat.leb_gt. lia.
    + right. apply Nat.leb_gt. lia.
  - intros ->. vm_compute in H1. lia.
Qed.

(** C3.  The kebab-case predicate of rules 4 and 7 accepts a string
    exactly when it is one or more segments of lower-case letters and
    digits joined by single hyphens.  In particular a string with an
    upper-case letter, an underscore, a double hyphen, a leading hyphen
    or a trailing hyphen is rejected. *)
Theorem is_kebab_case_spec : forall name : str,
  (is_kebab_case name = true <-> kebab_segments name) /\
  ((exists c, In c name /\ is_upper c = true) ->
   is_kebab_case name = false) /\
  (In "_"%char name -> is_kebab_case name = false) /\
  (contains "--" name = true -> is_kebab_case name = false) /\
  (startswith "-" name = true -> is_kebab_case name = false) /\
  (endswith "-" name = true -> is_kebab_case name = false).
Proof.
  intros name. split; [apply is_kebab_case_iff|].
  assert (Hchars : forall c, In c name -> lower_alnum c = false ->
                             c <> "-"%char -> is_kebab_case name = false).
  { intros c Hin Hc Hh. destruct (is_kebab_case name) eqn:E; [|reflexivity].
    apply is_kebab_case_iff, kebab_segments_scan, kebab_scan_chars in E.
    rewrite Forall_forall in E. destruct (E c Hin); congruence. }
  repeat split.
  - intros (c & Hin & Hup). apply upper_not_alnum in Hup as [H1 H2].
    now apply (Hchars c).
  - intros Hin. apply (Hchars "_"%char Hin); [reflexivity|discriminate].
  - intros H. apply contains_iff in H as (a & b & ->).
    apply not_kebab, kebab_scan_double_hyphen.
  - intros H. apply startswith_inv in H as [t ->].
    apply not_kebab. reflexivity.
  - intros H. unfold endswith in H. apply startswith_inv in H as [t Ht].
    apply (f_equal (@rev ascii)) in Ht.
    rewrite rev_involutive, rev_app_distr, rev_involutive in Ht. subst name.
    apply not_kebab, kebab_scan_trailing_hyphen.
Qed.

(** ** C1: the reporter's count and the exit status *)

Lemma report_loop_count results : forall n,
  snd (report_loop results n) = n + failed_count results.
Proof.
  unfold failed_count.
  induction results as [|r results IH]; intros n; simpl; [lia|].
  specialize (IH (if passed r then n else n + 1)).
  destruct (report_loop results (if passed r then n else n + 1)) as [out k].
  simpl in *. subst k. destruct (passed r); simpl; lia.
Qed.

Lemma print_report_count w results skill_dir :
  snd (print_report w results skill_dir) = failed_count results.
Proof.
  unfold print_report.
  pose proof (report_loop_count results 0) as H.
  destruct (report_loop results 0) as [out k]. simpl in *. exact H.
Qed.

(** Every call of [print] returns exactly when every text can be
    printed after the texts before it. *)
Lemma emit_all w texts : forall done,
  (forall before t later,
     texts = before ++ t :: later -> can_print w (done ++ before) t = true) ->
  emit w done texts = (done ++ texts, true).
Proof.
  induction texts as [|a texts IH]; intros done H; cbn [emit].
  - now rewrite app_nil_r.
  - pose proof (H [] a texts eq_refl) as Ha. rewrite app_nil_r in Ha.
    rewrite Ha, IH.
    + now rewrite <- app_assoc.
    + intros before t later ->. rewrite <- app_assoc.
      apply (H (a :: before) t later). reflexivity.
Qed.

Lemma emit_all_inv w texts : forall done,
  snd (emit w done texts) = true ->
  forall before t later,
    texts = before ++ t :: later -> can_print w (done ++ before) t = true.
Proof.
  induction texts as [|a texts IH]; intros done H before t later E.
  - destruct before; discriminate E.
  - cbn [emit] in H. destruct (can_print w done a) eqn:Ha; [|discriminate H].
    destruct before as [|b before].
    + injection E as <- _. now rewrite app_nil_r.
    + injection E as <- E.
      pose proof (IH _ H before t later E) as Hc.
      now rewrite <- app_assoc in Hc.
Qed.

(** The first call of [print] that raises ends the sequence. *)
Lemma emit_first_raise w : forall before done t later,
  (forall before' t' later',
     before = before' ++ t' :: later' ->
     can_print w (done ++ before') t' = true) ->
  can_print w (done ++ before) t = false ->
  emit w done (before ++ t :: later) = (done ++ before, false).
Proof.
  induction before as [|a before IH]; intros done t later H Hc.
  - cbn [app emit]. rewrite app_nil_r in *. now rewrite Hc.
  - cbn [app emit].
    pose proof (H [] a before eq_refl) as Ha. rewrite app_nil_r in Ha.
    rewrite Ha, IH.
    + now rewrite <- app_assoc.
    + intros before' t' later' ->. rewrite <- app_assoc.
      apply (H (a :: before') t' later'). reflexivity.
    + now rewrite <- app_assoc.
Qed.

Lemma emit_always w :
  (forall done t, can_print w done t = true) ->
  forall texts done, emit w done texts = (done ++ texts, true).
Proof.
  intros Hp. induction texts as [|t texts IH]; intros done; cbn [emit].
  - now rewrite app_nil_r.
  - rewrite Hp, IH. now rewrite <- app_assoc.
Qed.

(** The report is never empty: it starts with its title. *)
Lemma print_report_nonempty w results skill_dir :
  exists title rest, fst (print_report w results skill_dir) = title :: rest.
Proof.
  unfold print_report. destruct (report_loop results 0) as [lines failures].
  cbn [fst app]. eexists. eexists. reflexivity.
Qed.

(** A run of [main] on a folder whose checks return. *)
Lemma main_report w prog skill_dir rest results :
  run_checks w skill_dir = Some results ->
  main w (prog :: skill_dir :: rest)
  = exit_process w (fst (emit w [] (fst (print_report w results skill_dir))))
      (if snd (emit w [] (fst (print_report w results skill_dir)))
       then (if failed_count results =? 0 then 0 else 1) else 1).
Proof.
  intros Hrun. unfold main. cbn [length nth Nat.ltb Nat.leb]. rewrite Hrun.
  pose proof (print_report_count w results skill_dir) as Hc.
  destruct (print_report w results skill_dir) as [texts failures].
  cbn [fst snd] in *. subst failures.
  destruct (emit w [] texts) as [out returned]. cbn [fst snd].
  destruct (failed_count results); reflexivity.
Qed.

(** C1.  The reporter returns the number of results whose [passed] is
    false.  In a run on a folder path in which the checks return and
    every call of [print] returns, the report is printed and the status
    is 0 when that number is zero and 1 otherwise, provided that the
    standard output can be flushed at the end, and 120 if not.  A run
    in which a call of [print] raises has printed the texts before that
    call and ends with 1 whatever the checks found, or with 120 if
    these texts cannot be flushed; a run in which the checks raise
    prints nothing and ends with 1.  With no positional argument the
    usage, which names the command line, is printed and the status is
    1, or 120 if the usage cannot be flushed; if printing it raises the
    status is 1. *)
Theorem exit_status_spec : forall (w : World) (argv : list str),
  (forall results skill_dir,
     snd (print_report w results skill_dir) = failed_count results) /\
  (forall prog skill_dir rest results,
     argv = prog :: skill_dir :: rest ->
     run_checks w skill_dir = Some results ->
     let texts := fst (print_report w results skill_dir) in
     ((forall before t later,
         texts = before ++ t :: later -> can_print w before t = true) ->
      stdout (main w argv) = texts /\
      status (main w argv)
      = if can_flush w texts
        then (if failed_count results =? 0 then 0 else 1)
        else 120) /\
     (forall before t later,
        texts = before ++ t :: later ->
        (forall before' t' later',
           before = before' ++ t' :: later' ->
           can_print w before' t' = true) ->
        can_print w before t = false ->
        stdout (main w argv) = before /\
        status (main w argv)
        = match before with
          | [] => 1
          | _ :: _ => if can_flush w before then 1 else 120
          end)) /\
  (forall prog skill_dir rest,
     argv = prog :: skill_dir :: rest ->
     run_checks w skill_dir = None -> main w argv = MkExit [] 1) /\
  (length argv < 2 ->
   main w argv
   = if can_print w [] usage_doc
     then MkExit [usage_doc] (if can_flush w [usage_doc] then 1 else 120)
     else MkExit [] 1) /\
  contains "Usage:" usage_doc = true /\
  contains "python validate_skill.py <path-to-skill-folder>" usage_doc = true.
Proof.
  intros w argv. split; [intros; apply print_report_count|].
  split; [|split; [|split; [|split; reflexivity]]].
  - intros prog skill_dir rest results -> Hrun texts.
    rewrite (main_report _ _ _ _ _ Hrun). fold texts.
    unfold exit_process. cbn [stdout status]. split.
    + intros Hall. rewrite (emit_all w texts [] Hall). cbn [fst snd app].
      split; [reflexivity|].
      destruct (print_report_nonempty w results skill_dir)
        as (title & more & E).
      fold texts in E. rewrite E. reflexivity.
    + intros before t later E Hbefore Hraise.
      rewrite E, (emit_first_raise w before [] t later Hbefore Hraise).
      cbn [fst snd app]. split; [reflexivity|].
      destruct before; reflexivity.
  - intros prog skill_dir rest -> Hrun. unfold main.
    cbn [length nth Nat.ltb Nat.leb]. now rewrite Hrun.
  - intros Hlen. unfold main.
    apply Nat.ltb_lt in Hlen. rewrite Hlen. cbn [emit].
    destruct (can_print w [] usage_doc); reflexivity.
Qed.

(** C1 as worded fails where the standard output takes the characters
    of ASCII only: every check of the folder passes, yet the title of
    the report cannot be printed, and the status is 1. *)
Lemma exit_status_counterexample :
  let w := skill_folder (Some (manifest_named "my-skill")) is_ascii in
  exists results,
    run_checks w "my-skill" = Some results /\
    failed_count results = 0 /\
    main w [("validate_skill.py" : str); ("my-skill" : str)] = MkExit [] 1.
Proof.
  eexists. split; [vm_compute; reflexivity|].
  split; vm_compute; reflexivity.
Qed.

(** ** C2: which rules stop the run *)

Lemma str_eqb_eq a b : str_eqb a b = true <-> a = b.
Proof.
  unfold str_eqb. destruct (list_eq_dec ascii_dec a b); split;
    congruence.
Qed.

Lemma skill_md_filter entries :
  filter (fun e : str => str_eqb e "SKILL.md") entries = [] <->
  ~ In ("SKILL.md" : str) entries.
Proof.
  induction entries as [|e entries IH]; cbn [filter In]; [tauto|].
  destruct (str_eqb e "SKILL.md") eqn:E.
  - apply str_eqb_eq in E. split; [discriminate|].
    intros H; exfalso; apply H; now left.
  - rewrite IH. split.
    + intros H [E'|Hin]; [|contradiction].
      apply str_eqb_eq in E'. congruence.
    + intros H Hin; apply H; now right.
Qed.

(** C2.  A path that is no directory gives that one failure and
    nothing else.  A directory without an entry named exactly SKILL.md
    gives the result of rule 1 and the failure of rule 2, whose detail
    names an entry that is SKILL.md in another case when there is one.
    Once the manifest is there and read, no rule stops the run: the
    results of rules 1 and 2 are followed by one result for every
    content rule that applies, whatever the others found.  A directory
    that cannot be listed, or a manifest that cannot be read, ends the
    run with no result at all. *)
Theorem run_checks_abort_spec : forall (w : World) (skill_dir : str),
  let d := abspath w skill_dir in
  (isdir w d = false ->
   run_checks w skill_dir = Some [no_directory d] /\
   label (no_directory d) = "Skill directory exists" /\
   passed (no_directory d) = false) /\
  (forall entries,
     isdir w d = true -> listdir w d = Some entries ->
     ~ In ("SKILL.md" : str) entries ->
     run_checks w skill_dir
       = Some [directory_found d; no_manifest entries] /\
     label (directory_found d) = "Skill directory exists" /\
     passed (directory_found d) = true /\
     label (no_manifest entries) = "SKILL.md found (exact case)" /\
     passed (no_manifest entries) = false /\
     ((exists e, In e entries /\ lower e = "skill.md") ->
      exists e, In e entries /\ lower e = "skill.md" /\
                detail (no_manifest entries) = "Found '" ++ e ++ "' instead.") /\
     ((forall e, In e entries -> lower e <> "skill.md") ->
      detail (no_manifest entries) = "SKILL.md not found.")) /\
  (forall entries raw,
     isdir w d = true -> listdir w d = Some entries ->
     In ("SKILL.md" : str) entries ->
     read_text w (path_join d "SKILL.md") = Some raw ->
     let checks := content_checks entries (basename d) raw in
     let fm := fst (count_chars_excluding_frontmatter raw) in
     let body := snd (count_chars_excluding_frontmatter raw) in
     let name := name_value_of fm in
     let desc := desc_value_of fm in
     run_checks w skill_dir
       = Some (directory_found d :: manifest_found :: checks) /\
     label manifest_found = "SKILL.md found (exact case)" /\
     passed manifest_found = true /\
     map passed checks
       = [negb (existsb names_readme entries);
          is_kebab_case (basename d);
          fm_valid raw;
          truthy name]
         ++ (if truthy name then [is_kebab_case name] else [])
         ++ (if truthy name && is_kebab_case (basename d)
             then [str_eqb name (basename d)] else [])
         ++ (if truthy name
             then [match reserved_found name with
                   | None => true | Some _ => false end]
             else [])
         ++ [truthy desc]
         ++ (if truthy desc
             then [length desc <=? 1024;
                   negb (has_match angle_re desc);
                   existsb (fun sig : str => contains sig (lower desc))
                     trigger_signals]
             else [])
         ++ [negb (has_match angle_re body); word_count raw <=? 5000]) /\
  (isdir w d = true ->
   (listdir w d = None \/
    exists entries,
      listdir w d = Some entries /\ In ("SKILL.md" : str) entries /\
      read_text w (path_join d "SKILL.md") = None) ->
   run_checks w skill_dir = None).
Proof.
  intros w skill_dir d. split; [|split; [|split]].
  - intros Hdir. unfold run_checks. fold d. rewrite Hdir.
    repeat split; reflexivity.
  - intros entries Hdir Hls Hno.
    split; [|do 4 (split; [reflexivity|]); split].
    + unfold run_checks. fold d. rewrite Hdir, Hls. cbn [negb].
      apply skill_md_filter in Hno. now rewrite Hno.
    + intros (e & Hin & Hlow). unfold no_manifest.
      destruct (filter _ entries) as [|e' l] eqn:E.
      * exfalso.
        assert (Hf : In e (filter (fun e : str =>
                     str_eqb (lower e) "skill.md"
                     && negb (str_eqb e "SKILL.md")) entries)).
        { apply filter_In. split; [assumption|].
          apply andb_true_iff. split; [now apply str_eqb_eq|].
          apply negb_true_iff. destruct (str_eqb e "SKILL.md") eqn:E'; auto.
          apply str_eqb_eq in E'. subst e. contradiction. }
        rewrite E in Hf. contradiction.
      * assert (Hf : In e' (e' :: l)) by now left.
        rewrite <- E in Hf. apply filter_In in Hf as [Hin' Hb].
        apply andb_true_iff in Hb as [Hb _]. apply str_eqb_eq in Hb.
        exists e'. repeat split; assumption.
    + intros Hnone. unfold no_manifest.
      destruct (filter _ entries) as [|e' l] eqn:E; [reflexivity|].
      assert (Hf : In e' (e' :: l)) by now left.
      rewrite <- E in Hf. apply filter_In in Hf as [Hin' Hb].
      apply andb_true_iff in Hb as [Hb _]. apply str_eqb_eq in Hb.
      exfalso. now apply (Hnone e').
  - intros entries raw Hdir Hls Hin Hread checks fm body name desc.
    split; [|do 2 (split; [reflexivity|])].
    + unfold run_checks. fold d. rewrite Hdir, Hls. cbn [negb].
      destruct (filter _ entries) as [|e l] eqn:E.
      * apply skill_md_filter in E. contradiction.
      * now rewrite Hread.
    + subst checks name desc fm body. unfold content_checks.
      destruct (count_chars_excluding_frontmatter raw) as [fm body].
      cbn [fst snd].
      destruct (truthy (name_value_of fm)) eqn:En,
        (truthy (desc_value_of fm)) eqn:Ed,
        (is_kebab_case (basename d)) eqn:Ef;
        unfold rule3, rule4, rule5, rule6, rule7, rule8, rule9, rule10,
          rule11, rule12, rule13, rule14, rule15;
        cbn [map app passed andb]; rewrite ?En, ?Ed, ?Ef; reflexivity.
  - intros Hdir H. unfold run_checks. fold d. rewrite Hdir. cbn [negb].
    destruct H as [Hls|(entries & Hls & Hin & Hread)]; rewrite Hls;
      [reflexivity|].
    destruct (filter _ entries) as [|e l] eqn:E.
    + apply skill_md_filter in E. contradiction.
    + now rewrite Hread.
Qed.

(** C2 as worded fails on a manifest that cannot be read: the path is
    a directory and SKILL.md is among its entries, so rules 1 and 2
    hold, yet the run ends without a result list and no content rule
    is evaluated. *)
Lemma run_checks_abort_counterexample :
  let w := skill_folder None (fun _ : str => true) in
  let d := abspath w "my-skill" in
  isdir w d = true /\
  (exists entries,
     listdir w d = Some entries /\ In ("SKILL.md" : str) entries) /\
  read_text w (path_join d "SKILL.md") = None /\
  run_checks w "my-skill" = None.
Proof.
  split; [reflexivity|]. split; [|split; reflexivity].
  exists ["SKILL.md" : str]. split; [reflexivity|now left].
Qed.

(** ** C8: the word count *)

Lemma split_ws_aux_space ws s :
  all_space ws -> split_ws_aux [] (ws ++ s) = split_ws_aux [] s.
Proof.
  unfold all_space. induction ws as [|c ws IH]; intros H; [reflexivity|].
  simpl in H. apply andb_true_iff in H as [Hc Hws].
  simpl. rewrite Hc. now apply IH.
Qed.

Lemma split_ws_aux_token t : forall cur s,
  forallb (fun c => negb (isspace c)) t = true ->
  split_ws_aux cur (t ++ s) = split_ws_aux (rev t ++ cur) s.
Proof.
  induction t as [|c t IH]; intros cur s H; [reflexivity|].
  simpl in H. apply andb_true_iff in H as [Hc Ht].
  apply negb_true_iff in Hc. simpl. rewrite Hc, IH by assumption.
  now rewrite <- app_assoc.
Qed.

Lemma tokenized_split_ws s toks : tokenized s toks -> split_ws s = toks.
Proof.
  unfold split_ws.
  induction 1 as [ws Hws|ws t Hws [Hne Ht]|ws t c rest toks Hws [Hne Ht] Hc _ IH].
  - rewrite <- (app_nil_r ws), split_ws_aux_space by assumption. reflexivity.
  - rewrite split_ws_aux_space by assumption.
    pose proof (split_ws_aux_token t [] [] Ht) as Hs.
    rewrite !app_nil_r in Hs. rewrite Hs. simpl.
    destruct (rev t) eqn:E.
    + apply (f_equal (@rev ascii)) in E. rewrite rev_involutive in E.
      simpl in E. congruence.
    + rewrite <- E, rev_involutive. reflexivity.
  - rewrite split_ws_aux_space, split_ws_aux_token by assumption.
    rewrite app_nil_r. cbn [split_ws_aux]. rewrite Hc.
    destruct (rev t) eqn:E.
    + apply (f_equal (@rev ascii)) in E. rewrite rev_involutive in E.
      simpl in E. congruence.
    + rewrite <- E, rev_involutive. f_equal.
      simpl in IH. rewrite Hc in IH. exact IH.
Qed.

Lemma tokenized_space_cons c s toks :
  isspace c = true -> tokenized s toks -> tokenized (c :: s) toks.
Proof.
  intros Hc H. inversion H as [ws Hws|ws t Hws Ht|ws t c' rest toks' Hws Ht Hc' Hr];
    subst.
  - constructor. unfold all_space in *. simpl. now rewrite Hc.
  - apply (T_last (c :: ws)); [|assumption].
    unfold all_space in *. simpl. now rewrite Hc.
  - apply (T_more (c :: ws)); try assumption.
    unfold all_space in *. simpl. now rewrite Hc.
Qed.

Lemma tokenized_char_cons c s toks :
  isspace c = false -> tokenized s toks ->
  match s with
  | [] => tokenized (c :: s) [[c]]
  | d :: _ =>
      if isspace d then tokenized (c :: s) ([c] :: toks)
      else match toks with
           | [] => False
           | t :: toks' => tokenized (c :: s) ((c :: t) :: toks')
           end
  end.
Proof.
  intros Hc H.
  assert (Htok : forall t, token t -> token (c :: t)).
  { intros t [Hne Ht]. split; [discriminate|]. simpl. now rewrite Hc, Ht. }
  assert (Hone : token [c]).
  { split; [discriminate|]. simpl. now rewrite Hc. }
  assert (Hhead : forall d ws, all_space (d :: ws) -> isspace d = true).
  { intros d ws Hd. unfold all_space in Hd. simpl in Hd.
    now apply andb_true_iff in Hd as [Hd _]. }
  assert (Hfirst : forall d t, token (d :: t) -> isspace d = false).
  { intros d t [_ Hd]. simpl in Hd.
    apply andb_true_iff in Hd as [Hd _]. now apply negb_true_iff in Hd. }
  inversion H as [ws Hws|ws t Hws Ht|ws t c' rest toks' Hws Ht Hc' Hr];
    subst.
  - destruct s as [|d s]; [apply (T_last []); [reflexivity|assumption]|].
    rewrite (Hhead _ _ Hws).
    apply (T_more [] [c] d s []);
      [reflexivity|assumption|exact (Hhead _ _ Hws)|now constructor].
  - destruct ws as [|d ws].
    + destruct t as [|d t]; [destruct Ht; congruence|]. cbn [app].
      rewrite (Hfirst _ _ Ht).
      apply (T_last [] (c :: d :: t)); [reflexivity|now apply Htok].
    + cbn [app]. rewrite (Hhead _ _ Hws).
      apply (T_more [] [c] d (ws ++ t) [t]);
        [reflexivity|assumption|exact (Hhead _ _ Hws)|].
      apply (T_last (d :: ws)); assumption.
  - destruct ws as [|d ws].
    + destruct t as [|d t]; [destruct Ht; congruence|]. cbn [app].
      rewrite (Hfirst _ _ Ht).
      apply (T_more [] (c :: d :: t) c' rest toks');
        [reflexivity|now apply Htok|assumption|assumption].
    + cbn [app]. rewrite (Hhead _ _ Hws).
      apply (T_more [] [c] d (ws ++ t ++ c' :: rest) (t :: toks'));
        [reflexivity|assumption|exact (Hhead _ _ Hws)|].
      apply (T_more (d :: ws)); assumption.
Qed.

Lemma tokenized_exists s : exists toks, tokenized s toks.
Proof.
  induction s as [|c s [toks IH]].
  - exists []. now constructor.
  - destruct (isspace c) eqn:Hc.
    + exists toks. now apply tokenized_space_cons.
    + pose proof (tokenized_char_cons c s toks Hc IH) as H.
      destruct s as [|d s]; [eauto|].
      destruct (isspace d); [eauto|].
      destruct toks as [|t toks']; [contradiction|eauto].
Qed.

Lemma split_ws_tokenized s : tokenized s (split_ws s).
Proof.
  destruct (tokenized_exists s) as [toks H].
  now rewrite (tokenized_split_ws _ _ H).
Qed.

(** ** The results of the content rules *)

Lemma content_checks_In entries folder raw r :
  let fm := fst (count_chars_excluding_frontmatter raw) in
  let body := snd (count_chars_excluding_frontmatter raw) in
  let name := name_value_of fm in
  let desc := desc_value_of fm in
  In r (content_checks entries folder raw) <->
  r = rule3 entries \/ r = rule4 folder \/ r = rule5 raw \/ r = rule6 name \/
  (truthy name = true /\ r = rule7 name) \/
  (truthy name = true /\ is_kebab_case folder = true /\
   r = rule8 name folder) \/
  (truthy name = true /\ r = rule9 name) \/
  r = rule10 desc \/
  (truthy desc = true /\ r = rule11 desc) \/
  (truthy desc = true /\ r = rule12 desc) \/
  (truthy desc = true /\ r = rule13 desc) \/
  r = rule14 body \/ r = rule15 raw.
Proof.
  unfold content_checks.
  destruct (count_chars_excluding_frontmatter raw) as [fm body].
  cbn [fst snd].
  destruct (truthy (name_value_of fm)) eqn:En,
    (truthy (desc_value_of fm)) eqn:Ed,
    (is_kebab_case folder) eqn:Ef;
    cbn [app In andb]; intuition (try discriminate; auto 20).
Qed.

(** C8.  Rule 15 is among the results of every manifest that is read,
    its label gives the number of words, and it passes exactly when
    the whitespace-delimited tokens of the whole raw document,
    frontmatter and delimiters included, number at most 5000. *)
Theorem word_count_rule_spec : forall (entries : list str) (folder raw : str),
  let checks := content_checks entries folder raw in
  In (rule15 raw) checks /\
  tokenized raw (split_ws raw) /\
  (forall r, In r checks -> startswith "Word count: " (label r) = true ->
     r = rule15 raw /\
     forall toks, tokenized raw toks ->
       (passed r = true <-> length toks <= 5000)) /\
  word_count ("---" ++ [NL] ++ "name: x" ++ [NL] ++ "---" ++ [NL] ++ "body") = 5 /\
  label (rule15 raw)
  = "Word count: " ++ str_of_nat (word_count raw) ++ " words (limit: 5000)" /\
  (forall toks, tokenized raw toks ->
     word_count raw = length toks /\
     (passed (rule15 raw) = true <-> length toks <= 5000)).
Proof.
  intros entries folder raw checks. subst checks.
  split; [apply content_checks_In; auto 20|].
  split; [apply split_ws_tokenized|].
  split; [|split; [reflexivity|split; [reflexivity|]]].
  - intros r Hin Hlab.
    assert (Hr : r = rule15 raw).
    { apply content_checks_In in Hin.
      repeat (destruct Hin as [Hin|Hin]);
        try (destruct Hin as (_ & _ & Hin)); try (destruct Hin as (_ & Hin));
        subst r; try reflexivity; discriminate Hlab. }
    split; [assumption|]. subst r.
    intros toks Htok. apply tokenized_split_ws in Htok.
    cbn [rule15 passed]. unfold word_count. rewrite Htok.
    apply Nat.leb_le.
  - intros toks Htok. apply tokenized_split_ws in Htok.
    cbn [rule15 passed]. unfold word_count. rewrite Htok.
    split; [reflexivity|]. apply Nat.leb_le.
Qed.

(** ** C7: the reserved words *)

Lemma reserved_found_none name :
  reserved_found name = None <->
  contains "claude" (lower name) = false /\
  contains "anthropic" (lower name) = false.
Proof.
  unfold reserved_found. cbn [List.find].
  destruct (contains "claude" (lower name));
    destruct (contains "anthropic" (lower name)); split;
    (intros [? ?] || intros ?); try discriminate; auto.
Qed.

Lemma truthy_lower name : truthy (lower name) = truthy name.
Proof. now destruct name. Qed.

Lemma contains_truthy (sub s : str) :
  sub <> [] -> contains sub s = true -> truthy s = true.
Proof.
  intros Hne H. destruct s; [|reflexivity].
  destruct sub; [congruence|]. discriminate H.
Qed.

(** C7.  Rule 9 fails exactly when the lower-cased name contains
    claude or anthropic as a substring.  The names my-claudeish-skill
    and claude-helper are both rejected. *)
Theorem reserved_keyword_spec : forall (entries : list str) (folder raw : str),
  let checks := content_checks entries folder raw in
  let name := name_value_of (fst (count_chars_excluding_frontmatter raw)) in
  ((exists r, In r checks /\ label r = label9 /\ passed r = false) <->
   (exists a b, lower name = a ++ "claude" ++ b) \/
   (exists a b, lower name = a ++ "anthropic" ++ b)) /\
  (exists r, In r (content_checks ["SKILL.md" : str] "my-claudeish-skill"
                     (manifest_named "my-claudeish-skill")) /\
             label r = label9 /\ passed r = false) /\
  (exists r, In r (content_checks ["SKILL.md" : str] "claude-helper"
                     (manifest_named "claude-helper")) /\
             label r = label9 /\ passed r = false).
Proof.
  intros entries folder raw checks name. subst checks. split; [|split].
  - rewrite <- !contains_iff. split.
    + intros (r & Hin & Hlab & Hfail).
      assert (Hpre : startswith "name contains" (label r) = true)
        by now rewrite Hlab.
      apply content_checks_In in Hin. fold name in Hin.
      repeat (destruct Hin as [Hin|Hin]);
        try (destruct Hin as (_ & _ & Hin)); try (destruct Hin as (_ & Hin));
        subst r; try discriminate Hpre.
      cbn [rule9 passed] in Hfail.
      destruct (reserved_found name) eqn:E; [|discriminate].
      destruct (contains "claude" (lower name)) eqn:E1; [now left|].
      destruct (contains "anthropic" (lower name)) eqn:E2; [now right|].
      assert (reserved_found name = None) by now apply reserved_found_none.
      congruence.
    + intros H.
      assert (Ht : truthy name = true).
      { rewrite <- truthy_lower.
        destruct H as [H|H]; eapply contains_truthy; try exact H;
          discriminate. }
      exists (rule9 name). split; [|split; [reflexivity|]].
      * apply content_checks_In. fold name. auto 20.
      * cbn [rule9 passed].
        destruct (reserved_found name) eqn:E; [reflexivity|].
        apply reserved_found_none in E as [E1 E2].
        destruct H; congruence.
  - exists (rule9 "my-claudeish-skill").
    split; [|split; reflexivity].
    vm_compute. auto 20.
  - exists (rule9 "claude-helper").
    split; [|split; reflexivity].
    vm_compute. auto 20.
Qed.

(** ** C4: the length of the description *)

Lemma truthy_nonempty (s : str) : truthy s = true <-> s <> [].
Proof. destruct s; simpl; split; congruence. Qed.

(** C4.  Rule 11 adds its result only when a non-empty description was
    extracted; it passes exactly when that description has at most 1024
    characters, and its remediation text gives the length minus 1024.
    A description of 1024 characters passes, one of 1025 fails with an
    overflow of 1. *)
Theorem description_length_spec :
  forall (entries : list str) (folder raw : str),
  let checks := content_checks entries folder raw in
  let desc := desc_value_of (fst (count_chars_excluding_frontmatter raw)) in
  (forall r, In r checks ->
     startswith "description length: " (label r) = true ->
     desc <> [] /\ r = rule11 desc) /\
  (desc <> [] -> In (rule11 desc) checks) /\
  (passed (rule11 desc) = true <-> length desc <= 1024) /\
  fix_ (rule11 desc)
    = "Shorten the description by "
      ++ str_of_Z (Z.of_nat (length desc) - 1024) ++ " characters." /\
  (let doc := manifest_described (repeat "a"%char 1024) in
   desc_value_of (fst (count_chars_excluding_frontmatter doc))
     = repeat "a"%char 1024 /\
   exists r, In r (content_checks ["SKILL.md" : str] "my-skill" doc) /\
             startswith "description length: " (label r) = true /\
             passed r = true) /\
  (let doc := manifest_described (repeat "a"%char 1025) in
   desc_value_of (fst (count_chars_excluding_frontmatter doc))
     = repeat "a"%char 1025 /\
   exists r, In r (content_checks ["SKILL.md" : str] "my-skill" doc) /\
             startswith "description length: " (label r) = true /\
             passed r = false /\
             fix_ r = "Shorten the description by 1 characters.").
Proof.
  intros entries folder raw checks desc. subst checks.
  split; [|split; [|split; [|split; [|split]]]].
  - intros r Hin Hlab.
    apply content_checks_In in Hin. fold desc in Hin.
    repeat (destruct Hin as [Hin|Hin]);
      try (destruct Hin as (_ & _ & Hin));
      try discriminate Hlab;
      try (destruct Hin as (Ht & Hin)); subst r; try discriminate Hlab.
    split; [now apply truthy_nonempty|reflexivity].
  - intros Hne. apply content_checks_In. fold desc.
    apply truthy_nonempty in Hne. auto 20.
  - cbn [rule11 passed]. apply Nat.leb_le.
  - reflexivity.
  - assert (E : desc_value_of
                  (fst (count_chars_excluding_frontmatter
                          (manifest_described (repeat "a"%char 1024))))
                = repeat "a"%char 1024) by (vm_compute; reflexivity).
    split; [exact E|].
    exists (rule11 (repeat "a"%char 1024)). split; [|split; reflexivity].
    apply content_checks_In. rewrite E. auto 20.
  - assert (E : desc_value_of
                  (fst (count_chars_excluding_frontmatter
                          (manifest_described (repeat "a"%char 1025))))
                = repeat "a"%char 1025) by (vm_compute; reflexivity).
    split; [exact E|].
    exists (rule11 (repeat "a"%char 1025)).
    split; [|split; [|split]]; try reflexivity.
    apply content_checks_In. rewrite E. auto 20.
Qed.

(** ** Searching *)

Lemma search_from_iff r : forall s prev,
  (exists m, search_from r prev s = Some m) <->
  exists pre m post, s = pre ++ m ++ post /\ lang r (after prev pre) m post.
Proof.
  induction s as [|c s IH]; intros prev; cbn [search_from].
  - destruct (run r prev [] []) as [|[[p' s'] g'] l] eqn:E; split.
    + intros [m H]; discriminate.
    + intros (pre & m & post & Hs & L).
      destruct pre; [|discriminate]. destruct m; [|discriminate].
      destruct post; [|discriminate].
      destruct (run_complete _ _ _ _ L []) as [g1 Hin].
      simpl in Hin. rewrite E in Hin. contradiction.
    + intros _. assert (Hin : In (p', s', g') (run r prev [] []))
        by (rewrite E; now left).
      apply run_sound in Hin as (m & Hs & L & _).
      exists [], m, s'. now split.
    + intros _. eexists; reflexivity.
  - destruct (run r prev (c :: s) []) as [|[[p' s'] g'] l] eqn:E; split.
    + intros H. apply IH in H as (pre & m & post & -> & L).
      exists (c :: pre), m, post. now split.
    + intros (pre & m & post & Hs & L). destruct pre as [|c' pre].
      * simpl in Hs, L. rewrite Hs in E.
        destruct (run_complete _ _ _ _ L []) as [g1 Hin].
        rewrite E in Hin. contradiction.
      * inversion Hs; subst. apply IH. now exists pre, m, post.
    + intros _. assert (Hin : In (p', s', g') (run r prev (c :: s) []))
        by (rewrite E; now left).
      apply run_sound in Hin as (m & Hs & L & _).
      exists [], m, s'. now split.
    + intros _. eexists; reflexivity.
Qed.

Lemma has_match_iff r s :
  has_match r s = true <->
  exists pre m post, s = pre ++ m ++ post /\ lang r (after None pre) m post.
Proof.
  rewrite <- search_from_iff. unfold has_match, search.
  destruct (search_from r None s) as [m|]; split; intros H;
    try discriminate; eauto.
  destruct H; discriminate.
Qed.

Lemma lang_lit s p m t : lang (Lit s) p m t <-> m = s.
Proof.
  revert p m. induction s as [|c s IH]; intros p m; cbn [Lit]; split.
  - apply lang_emp_inv.
  - intros ->. constructor.
  - intros H. apply lang_cat_inv in H as (m1 & m2 & -> & L1 & L2).
    apply lang_chr_inv in L1 as ->. apply IH in L2 as ->. reflexivity.
  - intros ->. apply (L_Cat _ _ _ [c] s); [constructor|]. now apply IH.
Qed.

Lemma forallb_any (s : str) : forallb any_char s = true.
Proof. induction s; [reflexivity|assumption]. Qed.

Lemma at_bol_after pre :
  at_bol (after None pre) = true <->
  pre = [] \/ exists pre', pre = pre' ++ [NL].
Proof.
  induction pre as [|c pre _] using rev_ind.
  - split; [now left|reflexivity].
  - rewrite after_app. cbn [after at_bol]. split.
    + intros H. apply Ascii.eqb_eq in H. subst c. right. now exists pre.
    + intros [H|[pre' H]].
      * destruct pre; discriminate.
      * apply app_inj_tail in H as [_ ->]. reflexivity.
Qed.

(** ** C5: the frontmatter delimiters *)

Lemma lang_closing_re p m t :
  lang closing_re p m t <->
  at_bol p = true /\
  exists ws content,
    all_space ws /\
    m = "---" ++ ws ++ [NL] ++ content ++ [NL] ++ "---".
Proof.
  unfold closing_re. cbn [Seq]. split.
  - intros H.
    apply lang_cat_inv in H as (m0 & m1 & -> & L0 & H).
    apply lang_bol_inv in L0 as [-> Hb].
    apply lang_cat_inv in H as (d1 & m2 & -> & L1 & H).
    apply lang_lit in L1 as ->.
    apply lang_cat_inv in H as (ws & m3 & -> & L2 & H).
    apply lang_rep_cls in L2.
    apply lang_cat_inv in H as (n1 & m4 & -> & L3 & H).
    apply lang_chr_inv in L3 as ->.
    apply lang_cat_inv in H as (content & m5 & -> & L4 & H).
    apply lang_cat_inv in H as (n2 & d2 & -> & L5 & L6).
    apply lang_chr_inv in L5 as ->. apply lang_lit in L6 as ->.
    split; [exact Hb|]. exists ws, content. split; [exact L2|reflexivity].
  - intros (Hb & ws & content & Hws & ->).
    apply (L_Cat _ _ _ [] _); [now constructor|].
    apply (L_Cat _ _ _ ("---" : str) _); [now apply lang_lit|].
    apply (L_Cat _ _ _ ws _); [now apply lang_rep_cls|].
    apply (L_Cat _ _ _ [NL] _); [constructor|].
    apply (L_Cat _ _ _ content _);
      [constructor; apply lang_rep_cls, forallb_any|].
    apply (L_Cat _ _ _ [NL] _); [constructor|]. now apply lang_lit.
Qed.

Lemma closing_match_iff raw :
  has_match closing_re raw = true <->
  exists pre ws content post,
    raw = pre ++ "---" ++ ws ++ [NL] ++ content ++ [NL] ++ "---" ++ post /\
    (pre = [] \/ exists pre', pre = pre' ++ [NL]) /\
    all_space ws.
Proof.
  rewrite has_match_iff. split.
  - intros (pre & m & post & -> & L).
    apply lang_closing_re in L as (Hb & ws & content & Hws & ->).
    exists pre, ws, content, post. split; [|split].
    + now rewrite <- !app_assoc.
    + now apply at_bol_after.
    + assumption.
  - intros (pre & ws & content & post & -> & Hb & Hws).
    exists pre, ("---" ++ ws ++ [NL] ++ content ++ [NL] ++ "---"), post.
    split; [now rewrite <- !app_assoc|].
    apply lang_closing_re. split; [now apply at_bol_after|].
    now exists ws, content.
Qed.

Lemma fm_valid_unfold raw :
  fm_valid raw = startswith "---" (lstrip raw) && has_match closing_re raw.
Proof. reflexivity. Qed.

Lemma closing_match_newline raw :
  has_match closing_re raw = true -> contains (NL :: "---") raw = true.
Proof.
  intros H. apply closing_match_iff in H
    as (pre & ws & content & post & -> & _ & _).
  apply contains_iff.
  exists (pre ++ "---" ++ ws ++ [NL] ++ content), post.
  now rewrite <- !app_assoc.
Qed.

Lemma closing_match_adjacent rest :
  contains (NL :: "---") rest = false ->
  has_match closing_re ("---" ++ [NL] ++ "---" ++ rest) = false.
Proof.
  intros Hno. destruct (has_match closing_re _) eqn:E; [|reflexivity].
  apply closing_match_iff in E
    as (pre & ws & content & post & Hraw & _ & _).
  remember (pre ++ "---" ++ ws ++ [NL] ++ content) as A eqn:HA.
  assert (Hlen : 4 <= length A).
  { subst A. rewrite !length_app. simpl. lia. }
  replace (pre ++ "---" ++ ws ++ [NL] ++ content ++ [NL] ++ "---" ++ post)
    with (A ++ (NL :: "---") ++ post) in Hraw
    by (subst A; now rewrite <- !app_assoc).
  destruct A as [|a1 [|a2 [|a3 [|a4 A']]]]; simpl in Hlen; try lia.
  injection Hraw as _ _ _ _ Hrest.
  assert (Hc : contains (NL :: "---") ("---" ++ rest) = true).
  { apply contains_iff. exists A', post. exact Hrest. }
  cbn in Hc. cbn in Hno. congruence.
Qed.

(** C5, as the code has it.  Rule 5 passes exactly when the document,
    trimmed of leading whitespace, starts with the delimiter and the
    untrimmed document holds, at the start of one of its lines, the
    delimiter followed by whitespace only, a newline, any text, and a
    newline followed by the delimiter.  In particular it fails on a
    document without a newline followed by the delimiter, and on one
    whose opening delimiter line is directly followed by the closing one
    when no later line starts with the delimiter. *)
Theorem frontmatter_delimiters_spec : forall raw : str,
  (fm_valid raw = true <->
   startswith "---" (lstrip raw) = true /\
   exists pre ws content post,
     raw = pre ++ "---" ++ ws ++ [NL] ++ content ++ [NL] ++ "---" ++ post /\
     (pre = [] \/ exists pre', pre = pre' ++ [NL]) /\
     all_space ws) /\
  (contains (NL :: "---") raw = false -> fm_valid raw = false) /\
  (forall rest, contains (NL :: "---") rest = false ->
     fm_valid ("---" ++ [NL] ++ "---" ++ rest) = false).
Proof.
  intros raw. split; [|split].
  - rewrite fm_valid_unfold, andb_true_iff, closing_match_iff. tauto.
  - intros Hno. rewrite fm_valid_unfold.
    destruct (has_match closing_re raw) eqn:E; [|apply andb_false_r].
    apply closing_match_newline in E. congruence.
  - intros rest Hno. rewrite fm_valid_unfold.
    rewrite closing_match_adjacent by assumption. apply andb_false_r.
Qed.

(** C5 as worded fails on a document whose opening delimiter is
    indented: trimmed it starts with the delimiter and a closing
    delimiter line follows a line of content, yet rule 5 fails. *)
Lemma fm_valid_indented_counterexample :
  fm_delimited indented_manifest = true /\
  fm_valid indented_manifest = false /\
  ~ (forall raw, fm_valid raw = true <-> fm_delimited raw = true).
Proof.
  assert (H1 : fm_delimited indented_manifest = true) by reflexivity.
  assert (H2 : fm_valid indented_manifest = false) by reflexivity.
  split; [exact H1|]. split; [exact H2|].
  intros H. apply H in H1. congruence.
Qed.

(** ** C10: whitespace before the opening delimiter *)

Lemma lstrip_space_prefix ws s :
  all_space ws -> lstrip (ws ++ s) = lstrip s.
Proof.
  unfold all_space, lstrip.
  induction ws as [|c ws IH]; intros H; [reflexivity|].
  simpl in H. apply andb_true_iff in H as [Hc Hws].
  simpl. rewrite Hc. now apply IH.
Qed.

Lemma space_prefix_no_delimiter ws s :
  ws <> [] -> all_space ws -> startswith "---" (ws ++ s) = false.
Proof.
  intros Hne Hws. destruct ws as [|c ws]; [congruence|].
  unfold all_space in Hws. simpl in Hws.
  apply andb_true_iff in Hws as [Hc _].
  cbn [app startswith String.list_ascii_of_string].
  destruct (Ascii.eqb "-" c) eqn:E; [|reflexivity].
  apply Ascii.eqb_eq in E. subst c. discriminate Hc.
Qed.

(** C10, as the code has it.  When whitespace stands before the opening
    delimiter, the split gives an empty frontmatter and the whole
    document as body, so rules 6 and 10 fail.  Rule 5 then passes
    exactly when the search for the delimiter pair succeeds on the
    untrimmed document; it does when the whitespace ends with a newline
    and the delimiter is followed by whitespace only, a newline, any
    text and a newline followed by the delimiter. *)
Theorem leading_whitespace_spec :
  forall (entries : list str) (folder ws tail : str),
  ws <> [] -> all_space ws ->
  let raw := ws ++ "---" ++ tail in
  let checks := content_checks entries folder raw in
  count_chars_excluding_frontmatter raw = ([], raw) /\
  name_value_of (fst (count_chars_excluding_frontmatter raw)) = [] /\
  desc_value_of (fst (count_chars_excluding_frontmatter raw)) = [] /\
  (In (rule6 []) checks /\ passed (rule6 []) = false) /\
  (In (rule10 []) checks /\ passed (rule10 []) = false) /\
  (In (rule5 raw) checks /\
   passed (rule5 raw) = has_match closing_re raw) /\
  (forall ws' sp content post,
     ws = ws' ++ [NL] -> all_space sp ->
     tail = sp ++ [NL] ++ content ++ [NL] ++ "---" ++ post ->
     passed (rule5 raw) = true).
Proof.
  intros entries folder ws tail Hne Hws raw checks.
  assert (Hsplit : count_chars_excluding_frontmatter raw = ([], raw)).
  { unfold count_chars_excluding_frontmatter. subst raw.
    now rewrite space_prefix_no_delimiter. }
  assert (Hopen : startswith "---" (lstrip raw) = true).
  { subst raw. rewrite lstrip_space_prefix by assumption. reflexivity. }
  assert (H5 : passed (rule5 raw) = has_match closing_re raw).
  { cbn [rule5 passed]. rewrite fm_valid_unfold, Hopen. reflexivity. }
  rewrite Hsplit. cbn [fst].
  split; [reflexivity|]. split; [reflexivity|]. split; [reflexivity|].
  subst checks.
  split; [split; [|reflexivity]|split; [split; [|reflexivity]|split; [split|]]].
  - apply content_checks_In. rewrite Hsplit. cbn [fst].
    change (name_value_of []) with (@nil ascii). auto 20.
  - apply content_checks_In. rewrite Hsplit. cbn [fst].
    change (desc_value_of []) with (@nil ascii). auto 20.
  - apply content_checks_In. auto 20.
  - exact H5.
  - intros ws' sp content post -> Hsp ->. rewrite H5.
    apply closing_match_iff. exists (ws' ++ [NL]), sp, content, post.
    split; [|split].
    + subst raw. reflexivity.
    + right. now exists ws'.
    + assumption.
Qed.

(** The theorem at a manifest that starts with an empty line. *)
Lemma leading_whitespace_witness :
  let raw := [NL] ++ "---" ++ [NL] ++ "name: x" ++ [NL] ++ "---" in
  count_chars_excluding_frontmatter raw = ([], raw) /\
  passed (rule6 (name_value_of (fst (count_chars_excluding_frontmatter raw))))
    = false.
Proof.
  assert (Hne : [NL] <> []) by discriminate.
  assert (Hws : all_space [NL]) by reflexivity.
  destruct (leading_whitespace_spec [] "x" [NL]
              ([NL] ++ "name: x" ++ [NL] ++ "---") Hne Hws)
    as (H1 & H2 & _).
  split; [exact H1|]. rewrite H2. reflexivity.
Defined.

(** C10 as worded fails on the indented manifest: whitespace stands
    before the opening delimiter, the split gives an empty frontmatter,
    and rule 5 fails as well. *)
Lemma leading_whitespace_counterexample :
  startswith " " indented_manifest = true /\
  startswith "---" (lstrip indented_manifest) = true /\
  count_chars_excluding_frontmatter indented_manifest
    = ([], indented_manifest) /\
  passed (rule5 indented_manifest) = false.
Proof. repeat split. Qed.

(** ** The first match of the backtracking matcher *)

Lemma first_bol prev s g :
  at_bol prev = true -> first_match Bol prev s g (prev, s, g).
Proof. intros H. exists []. simpl. now rewrite H. Qed.

Lemma first_eol prev s g :
  at_eol s = true -> first_match Eol prev s g (prev, s, g).
Proof. intros H. exists []. simpl. now rewrite H. Qed.

Lemma first_chr c prev s g :
  first_match (Chr c) prev (c :: s) g (Some c, s, g).
Proof. exists []. simpl. now rewrite Ascii.eqb_refl. Qed.

Lemma first_cat r1 r2 prev s g p1 s1 g1 q :
  first_match r1 prev s g (p1, s1, g1) ->
  first_match r2 p1 s1 g1 q ->
  first_match (Cat r1 r2) prev s g q.
Proof.
  intros [tl1 H1] [tl2 H2]. unfold first_match. cbn [run].
  rewrite H1. cbn [flat_map]. rewrite H2. eexists. reflexivity.
Qed.

Lemma first_grp n r prev s g p1 s1 g1 :
  first_match r prev s g (p1, s1, g1) ->
  first_match (Grp n r) prev s g (p1, s1, set_cap n (consumed s s1) g1).
Proof.
  intros [tl H]. unfold first_match. cbn [run]. rewrite H.
  eexists. reflexivity.
Qed.

Lemma run_lit k : forall prev s g,
  run (Lit k) prev s g
  = if startswith k s then [(after prev k, skipn (length k) s, g)] else [].
Proof.
  induction k as [|c k IH]; intros prev s g; [reflexivity|].
  cbn [Lit run]. destruct s as [|x s]; [reflexivity|].
  cbn [startswith]. rewrite (Ascii.eqb_sym c x).
  destruct (Ascii.eqb x c) eqn:E; [|reflexivity].
  apply Ascii.eqb_eq in E. subst x. cbn [flat_map andb].
  rewrite IH, app_nil_r. reflexivity.
Qed.

Lemma first_lit k prev s g :
  first_match (Lit k) prev (k ++ s) g (after prev k, s, g).
Proof.
  exists []. rewrite run_lit, startswith_app.
  rewrite skipn_app, skipn_all, Nat.sub_diag. reflexivity.
Qed.

(** A greedy repetition stops where its body finds nothing. *)
Lemma first_rep_stop r prev s g :
  run r prev s g = [] -> first_match (Rep true r) prev s g (prev, s, g).
Proof.
  intros H. exists []. cbn [run].
  destruct (length s); [reflexivity|]. cbn [rep_loop]. now rewrite H.
Qed.

(** A greedy repetition goes on where its body finds something. *)
Lemma first_rep_step r prev s g p1 s1 g1 q :
  first_match r prev s g (p1, s1, g1) -> length s1 < length s ->
  first_match (Rep true r) p1 s1 g1 q ->
  first_match (Rep true r) prev s g q.
Proof.
  intros [tl1 H1] Hlt [tl2 H2]. unfold first_match. cbn [run] in *.
  destruct (length s) as [|n] eqn:En; [lia|].
  cbn [rep_loop]. rewrite H1. cbn [flat_map].
  apply Nat.ltb_lt in Hlt as Hb. rewrite <- En in Hb. rewrite Hb.
  rewrite (rep_loop_fuel _ _ n (length s1)) by lia.
  rewrite H2. eexists. reflexivity.
Qed.

(** A greedy repetition of a class takes the whole run of the class. *)
Lemma first_rep_cls f a : forall prev rest g,
  forallb f a = true ->
  match rest with [] => True | c :: _ => f c = false end ->
  first_match (Rep true (Cls f)) prev (a ++ rest) g (after prev a, rest, g).
Proof.
  induction a as [|c a IH]; intros prev rest g Ha Hrest.
  - apply first_rep_stop. destruct rest as [|c rest]; [reflexivity|].
    simpl. now rewrite Hrest.
  - simpl in Ha. apply andb_true_iff in Ha as [Hc Ha].
    apply (first_rep_step _ _ _ _ (Some c) (a ++ rest) g).
    + exists []. simpl. now rewrite Hc.
    + simpl. lia.
    + now apply IH.
Qed.

Lemma first_plus_cls f a prev rest g :
  a <> [] -> forallb f a = true ->
  match rest with [] => True | c :: _ => f c = false end ->
  first_match (Plus (Cls f)) prev (a ++ rest) g (after prev a, rest, g).
Proof.
  intros Hne Ha Hrest. destruct a as [|c a]; [congruence|].
  simpl in Ha. apply andb_true_iff in Ha as [Hc Ha].
  unfold Plus. cbn [app after].
  apply (first_cat (Cls f) (Rep true (Cls f)) prev (c :: a ++ rest) g
                   (Some c) (a ++ rest) g).
  - exists []. simpl. now rewrite Hc.
  - now apply first_rep_cls.
Qed.

Lemma consumed_app (a b : str) : consumed (a ++ b) b = a.
Proof.
  unfold consumed. rewrite length_app, Nat.add_sub.
  rewrite firstn_app, firstn_all, Nat.sub_diag. simpl. apply app_nil_r.
Qed.

(** ** Searching past the lines before a key *)

Section Keyed.
(** An expression that wants the key [k] at the start of a line. *)
Variable k : str.
Variable rest_re : regex.
Hypothesis k_no_newline : ~ In NL k.
Hypothesis k_nonempty : k <> [].

Lemma run_keyed_nil prev s g :
  at_bol prev = false \/ startswith k s = false ->
  run (Cat Bol (Cat (Lit k) rest_re)) prev s g = [].
Proof.
  intros H. cbn [run].
  destruct (at_bol prev); [|reflexivity].
  destruct H as [H|H]; [discriminate|].
  cbn [flat_map]. rewrite run_lit, H. reflexivity.
Qed.

Lemma search_skip_chars s : forall l prev,
  ~ In NL l ->
  at_bol prev = false \/ startswith k (l ++ NL :: s) = false ->
  search_from (Cat Bol (Cat (Lit k) rest_re)) prev (l ++ NL :: s)
  = search_from (Cat Bol (Cat (Lit k) rest_re)) (Some NL) s.
Proof.
  induction l as [|c l IH]; intros prev Hnl H.
  - cbn [app search_from]. rewrite run_keyed_nil by assumption.
    reflexivity.
  - cbn [app search_from]. rewrite run_keyed_nil by assumption.
    apply IH.
    + intros Hin. apply Hnl. now right.
    + left. cbn [at_bol]. apply Ascii.eqb_neq.
      intros ->. apply Hnl. now left.
Qed.
End Keyed.

Lemma startswith_other_line k : forall l s,
  ~ In NL k -> k <> [] -> other_line k l ->
  startswith k (l ++ NL :: s) = false.
Proof.
  induction k as [|a k IH]; intros l s Hno Hne [Hnl Hk]; [congruence|].
  destruct l as [|b l]; cbn [app startswith].
  - destruct (Ascii.eqb a NL) eqn:E; [|reflexivity].
    apply Ascii.eqb_eq in E. exfalso. apply Hno. now left.
  - cbn [startswith] in Hk.
    destruct (Ascii.eqb a b); [|reflexivity]. cbn [andb] in *.
    destruct k as [|a' k]; [discriminate Hk|].
    apply IH.
    + intros H. apply Hno. now right.
    + discriminate.
    + split; [|assumption]. intros H. apply Hnl. now right.
Qed.

Lemma search_skip_lines k rest_re lines s :
  ~ In NL k -> k <> [] ->
  Forall (other_line k) lines -> lines <> [] ->
  search_from (Cat Bol (Cat (Lit k) rest_re)) None (unlines lines ++ s)
  = search_from (Cat Bol (Cat (Lit k) rest_re)) (Some NL) s.
Proof.
  intros Hno Hk Hall Hne.
  assert (H : forall prev,
             search_from (Cat Bol (Cat (Lit k) rest_re)) prev
                         (unlines lines ++ s)
             = search_from (Cat Bol (Cat (Lit k) rest_re)) (Some NL) s).
  { induction Hall as [|l lines Hl Hall IH]; [congruence|].
    intros prev. unfold unlines. cbn [map concat].
    rewrite <- !app_assoc. cbn [app].
    rewrite search_skip_chars.
    - destruct lines as [|l' lines]; [reflexivity|].
      apply IH. discriminate.
    - apply Hl.
    - right. now apply startswith_other_line. }
  apply H.
Qed.

(** The search finds the first line that starts with the key. *)
Lemma search_keyed k rest_re lines s s1 g1 :
  ~ In NL k -> k <> [] ->
  Forall (other_line k) lines ->
  (forall prev, at_bol prev = true ->
     exists p1,
       first_match (Cat Bol (Cat (Lit k) rest_re)) prev s [] (p1, s1, g1)) ->
  search (Cat Bol (Cat (Lit k) rest_re)) (unlines lines ++ s)
  = Some (MkMatch s s1 g1).
Proof.
  intros Hno Hk Hall Hfirst. unfold search.
  assert (Hat : forall prev, at_bol prev = true ->
                  search_from (Cat Bol (Cat (Lit k) rest_re)) prev s
                  = Some (MkMatch s s1 g1)).
  { intros prev Hb. destruct (Hfirst prev Hb) as (p1 & tl & H).
    destruct s; cbn [search_from]; rewrite H; reflexivity. }
  destruct lines as [|l lines].
  - apply Hat. reflexivity.
  - rewrite search_skip_lines; try assumption; [|discriminate].
    apply Hat. reflexivity.
Qed.

(** ** Stripping *)

Lemma lstrip_by_app p (x y : str) :
  (exists c, In c x /\ p c = false) ->
  lstrip_by p (x ++ y) = lstrip_by p x ++ y.
Proof.
  induction x as [|a x IH]; intros (c & Hin & Hc); [destruct Hin|].
  cbn [app lstrip_by]. destruct (p a) eqn:Ha; [|reflexivity].
  apply IH. destruct Hin as [->|Hin]; [congruence|]. now exists c.
Qed.

Lemma lstrip_by_idem p (s : str) :
  lstrip_by p (lstrip_by p s) = lstrip_by p s.
Proof.
  induction s as [|a s IH]; [reflexivity|].
  cbn [lstrip_by]. destruct (p a) eqn:Ha; [assumption|].
  cbn [lstrip_by]. now rewrite Ha.
Qed.

Lemma rstrip_by_idem p (s : str) :
  rstrip_by p (rstrip_by p s) = rstrip_by p s.
Proof.
  unfold rstrip_by. now rewrite rev_involutive, lstrip_by_idem.
Qed.

Lemma rstrip_by_app p (a b : str) :
  (exists c, In c b /\ p c = false) ->
  rstrip_by p (a ++ b) = a ++ rstrip_by p b.
Proof.
  intros (c & Hin & Hc). unfold rstrip_by.
  rewrite rev_app_distr, lstrip_by_app.
  - now rewrite rev_app_distr, rev_involutive.
  - exists c. split; [now apply in_rev in Hin|assumption].
Qed.

Lemma rstrip_by_head p c (v : str) :
  p c = false -> exists w, rstrip_by p (c :: v) = c :: w.
Proof.
  intros Hc. change (c :: v) with ([c] ++ v).
  destruct (forallb p v) eqn:Hv.
  - exists []. unfold rstrip_by. rewrite rev_app_distr.
    assert (E : forall x : str, forallb p x = true ->
                  lstrip_by p (x ++ [c]) = [c]).
    { induction x as [|a x IH]; intros Hx; cbn [app lstrip_by].
      - now rewrite Hc.
      - simpl in Hx. apply andb_true_iff in Hx as [Ha Hx].
        rewrite Ha. now apply IH. }
    cbn [rev app]. rewrite E; [reflexivity|].
    rewrite forallb_forall in *. intros x Hx. apply Hv. now apply in_rev.
  - exists (rstrip_by p v). apply rstrip_by_app.
    destruct (forallb_forall p v) as [_ H].
    destruct (existsb (fun x => negb (p x)) v) eqn:E.
    + apply existsb_exists in E as (x & Hin & Hx).
      exists x. split; [assumption|]. now apply negb_true_iff.
    + exfalso. rewrite H in Hv; [discriminate|].
      intros x Hx. destruct (p x) eqn:Hp; [reflexivity|].
      assert (existsb (fun x => negb (p x)) v = true).
      { apply existsb_exists. exists x. split; [assumption|].
        now rewrite Hp. }
      congruence.
Qed.

Lemma strip_starts_nonspace (v : str) :
  starts_nonspace v -> strip v = rstrip_by isspace v /\
                       starts_nonspace (strip v).
Proof.
  intros H. destruct v as [|c v]; [destruct H|]. simpl in H.
  assert (E : strip (c :: v) = rstrip_by isspace (c :: v)).
  { unfold strip, strip_by. cbn [lstrip_by]. now rewrite H. }
  split; [exact E|]. rewrite E.
  destruct (rstrip_by_head isspace c v H) as [w ->]. exact H.
Qed.

Lemma strip_idem_nonspace (v : str) :
  starts_nonspace v -> strip (strip v) = strip v.
Proof.
  intros H. destruct (strip_starts_nonspace v H) as [E H'].
  destruct (strip_starts_nonspace _ H') as [E' _].
  rewrite E', E. apply rstrip_by_idem.
Qed.

Lemma strip_space_prefix ws (s : str) :
  all_space ws -> strip (ws ++ s) = strip s.
Proof.
  intros H. unfold strip, strip_by.
  pose proof (lstrip_space_prefix ws s H) as E. unfold lstrip in E.
  now rewrite E.
Qed.

Lemma starts_nonspace_In (v : str) :
  starts_nonspace v -> exists c, In c v /\ isspace c = false.
Proof.
  destruct v as [|c v]; [intros []|]. intros H. exists c. split; [now left|].
  exact H.
Qed.

(** The first line of the description, as the loop cleans it. *)
Lemma clean_first_line sp0 v0 :
  all_space sp0 -> starts_nonspace v0 ->
  clean_desc_line ("description:" ++ sp0 ++ v0)
  = strip (lstrip_by (in_chars ">|") (strip v0)).
Proof.
  intros Hsp Hv. unfold clean_desc_line.
  assert (E : strip ("description:" ++ sp0 ++ v0)
              = "description:" ++ sp0 ++ rstrip_by isspace v0).
  { unfold strip, strip_by. cbn [lstrip_by String.list_ascii_of_string app].
    change (isspace "d") with false. cbv iota.
    change ("d"%char :: "e"%char :: "s"%char :: "c"%char :: "r"%char
            :: "i"%char :: "p"%char :: "t"%char :: "i"%char :: "o"%char
            :: "n"%char :: ":"%char :: sp0 ++ v0)
      with (("description:" ++ sp0) ++ v0).
    rewrite rstrip_by_app by now apply starts_nonspace_In.
    reflexivity. }
  rewrite E, startswith_app.
  rewrite skipn_app, skipn_all, Nat.sub_diag. cbn [skipn app].
  rewrite strip_space_prefix by assumption.
  destruct (strip_starts_nonspace v0 Hv) as [E' _]. rewrite <- E'.
  now rewrite strip_idem_nonspace.
Qed.

Lemma clean_continuation_line l :
  startswith "description:" (strip l) = false ->
  clean_desc_line ("  " ++ l) = strip l.
Proof.
  intros H. unfold clean_desc_line.
  rewrite strip_space_prefix by reflexivity. now rewrite H.
Qed.

(** ** Splitting into lines *)

Lemma split_on_nonempty sep s : split_on sep s <> [].
Proof.
  destruct s as [|c s]; cbn [split_on]; [discriminate|].
  destruct (Ascii.eqb c sep); [discriminate|].
  destruct (split_on sep s); discriminate.
Qed.

Lemma split_on_line sep : forall l s,
  ~ In sep l -> split_on sep (l ++ sep :: s) = l :: split_on sep s.
Proof.
  induction l as [|c l IH]; intros s Hnl; cbn [app split_on].
  - now rewrite Ascii.eqb_refl.
  - destruct (Ascii.eqb c sep) eqn:E.
    + apply Ascii.eqb_eq in E. exfalso. apply Hnl. now left.
    + rewrite IH; [reflexivity|]. intros H. apply Hnl. now right.
Qed.

Lemma split_on_last sep : forall l, ~ In sep l -> split_on sep l = [l].
Proof.
  induction l as [|c l IH]; intros Hnl; cbn [split_on]; [reflexivity|].
  destruct (Ascii.eqb c sep) eqn:E.
  - apply Ascii.eqb_eq in E. exfalso. apply Hnl. now left.
  - rewrite IH; [reflexivity|]. intros H. apply Hnl. now right.
Qed.

Lemma split_on_continuation : forall conts l0,
  ~ In NL l0 -> Forall (fun l : str => ~ In NL l) conts ->
  split_on NL (l0 ++ continuation conts)
  = l0 :: map (fun l : str => "  " ++ l) conts.
Proof.
  induction conts as [|c conts IH]; intros l0 H0 Hall.
  - unfold continuation. cbn [map concat]. rewrite app_nil_r.
    now apply split_on_last.
  - inversion Hall as [|? ? Hc Hrest]; subst.
    unfold continuation. cbn [map concat]. fold (continuation conts).
    change ((NL :: "  " ++ c) ++ continuation conts)
      with (NL :: ("  " ++ c) ++ continuation conts).
    rewrite split_on_line by assumption.
    rewrite IH; [reflexivity| |assumption].
    intros [H|[H|H]]; try discriminate. contradiction.
Qed.

(** ** The first match of the name and of the description *)

Lemma no_newline_forallb (v : str) :
  ~ In NL v -> forallb not_nl v = true.
Proof.
  intros H. apply forallb_forall. intros c Hc. unfold not_nl.
  apply negb_true_iff, Ascii.eqb_neq. intros ->. contradiction.
Qed.

Lemma first_name_re prev sp v post :
  at_bol prev = true -> all_space sp -> starts_nonspace v ->
  ~ In NL v -> ends_line post ->
  exists p1,
    first_match name_re prev ("name:" ++ sp ++ v ++ post) [] (p1, post, [(1, v)]).
Proof.
  intros Hb Hsp Hv Hnl Hpost. eexists. unfold name_re. cbn [Seq].
  eapply first_cat; [now apply first_bol|].
  eapply first_cat; [apply first_lit|].
  eapply first_cat.
  { apply first_rep_cls; [exact Hsp|].
    destruct v as [|c v]; [destruct Hv|]. exact Hv. }
  eapply first_cat.
  { apply first_grp. apply first_plus_cls.
    - destruct v; [destruct Hv|discriminate].
    - now apply no_newline_forallb.
    - destruct post as [|c post]; [exact I|]. simpl in Hpost. now subst c. }
  rewrite consumed_app. cbn [set_cap filter].
  apply first_eol. destruct post as [|c post]; [reflexivity|].
  simpl in Hpost. now subst c.
Qed.

Lemma continuation_rest conts post :
  ends_block post ->
  match continuation conts ++ post with
  | [] => True
  | c :: _ => not_nl c = false
  end.
Proof.
  intros Hpost. destruct conts as [|c conts]; [|reflexivity].
  cbn. destruct post as [|c post]; [exact I|].
  destruct Hpost as [-> _]. reflexivity.
Qed.

Lemma first_continuation post : forall conts prev g,
  Forall (fun l : str => ~ In NL l) conts -> ends_block post ->
  exists p1,
    first_match (Rep true cont_re) prev (continuation conts ++ post) g
                (p1, post, g).
Proof.
  induction conts as [|c conts IH]; intros prev g Hall Hpost.
  - exists prev. apply first_rep_stop. cbn [continuation map concat app].
    destruct post as [|x post]; [reflexivity|].
    destruct Hpost as [-> Hind]. unfold cont_re. cbn [Seq run].
    rewrite Ascii.eqb_refl. cbn [flat_map]. rewrite run_lit, Hind.
    reflexivity.
  - inversion Hall as [|? ? Hc Hrest]; subst.
    destruct (IH (after (after (Some NL) "  ") c) g Hrest Hpost) as [p1 H1].
    exists p1.
    unfold continuation. cbn [map concat]. fold (continuation conts).
    replace (((NL :: "  " ++ c) ++ continuation conts) ++ post)
      with (NL :: "  " ++ c ++ (continuation conts ++ post))
      by (rewrite <- (app_assoc (NL :: "  " ++ c)), <- app_comm_cons,
            <- (app_assoc "  " c); reflexivity).
    eapply first_rep_step; [| |exact H1].
    + unfold cont_re. cbn [Seq].
      eapply first_cat; [apply first_chr|].
      eapply first_cat; [apply first_lit|].
      apply first_rep_cls; [now apply no_newline_forallb|].
      now apply continuation_rest.
    + cbn [length app]. rewrite !length_app. cbn [length]. lia.
Qed.

Lemma first_desc_re prev sp0 v0 conts post :
  at_bol prev = true -> all_space sp0 -> starts_nonspace v0 ->
  ~ In NL v0 -> Forall (fun l : str => ~ In NL l) conts ->
  ends_block post ->
  exists p1,
    first_match desc_re prev
      ("description:" ++ sp0 ++ v0 ++ continuation conts ++ post) []
      (p1, post, [(1, v0 ++ continuation conts)]).
Proof.
  intros Hb Hsp Hv Hnl Hall Hpost.
  destruct (first_continuation post conts
              (after (after (after prev "description:") sp0) v0) []
              Hall Hpost) as [p1 H1].
  exists p1.
  assert (Hin : first_match
                  (Cat (Rep true (Cls not_nl)) (Rep true cont_re))
                  (after (after prev "description:") sp0)
                  (v0 ++ continuation conts ++ post) [] (p1, post, [])).
  { eapply first_cat; [|exact H1].
    apply first_rep_cls; [now apply no_newline_forallb|].
    now apply continuation_rest. }
  apply (first_grp 1) in Hin.
  rewrite (app_assoc v0), consumed_app in Hin. cbn [set_cap filter] in Hin.
  rewrite <- (app_assoc v0) in Hin.
  unfold desc_re. cbn [Seq].
  eapply first_cat; [now apply first_bol|].
  eapply first_cat; [apply first_lit|].
  eapply first_cat; [|exact Hin].
  apply first_rep_cls; [exact Hsp|].
  destruct v0 as [|c v0]; [destruct Hv|]. exact Hv.
Qed.

(** ** C6: the fields of the frontmatter *)

(** A text given character by character holds no newline. *)
Ltac no_newline :=
  let H := fresh in
  intros H; cbn in H;
  repeat (destruct H as [H|H]; [discriminate H|]); exact H.

Lemma name_value_of_line lines sp v post :
  Forall (other_line "name:") lines -> all_space sp ->
  starts_nonspace v -> ~ In NL v -> ends_line post ->
  name_value_of (unlines lines ++ "name:" ++ sp ++ v ++ post)
  = strip_by (in_chars [DQUOTE; SQUOTE]) (strip v).
Proof.
  intros Hlines Hsp Hv Hnl Hpost. unfold name_value_of, name_re.
  cbn [Seq].
  rewrite (search_keyed "name:" _ lines _ post [(1, v)]).
  - reflexivity.
  - no_newline.
  - discriminate.
  - assumption.
  - intros prev Hb. now apply first_name_re.
Qed.

Lemma desc_value_of_block lines sp0 v0 conts post :
  Forall (other_line "description:") lines ->
  all_space sp0 -> ~ In NL sp0 -> starts_nonspace v0 -> ~ In NL v0 ->
  Forall (fun l : str =>
            ~ In NL l /\ startswith "description:" (strip l) = false) conts ->
  ends_block post ->
  desc_value_of
    (unlines lines ++ "description:" ++ sp0 ++ v0
       ++ continuation conts ++ post)
  = join " " (filter truthy
                (strip (lstrip_by (in_chars ">|") (strip v0))
                 :: map strip conts)).
Proof.
  intros Hlines Hsp Hspnl Hv Hnl Hconts Hpost.
  assert (Hall : Forall (fun l : str => ~ In NL l) conts).
  { eapply Forall_impl; [|exact Hconts]. now intros l [H _]. }
  unfold desc_value_of, desc_re. cbn [Seq].
  rewrite (search_keyed "description:" _ lines _ post
             [(1, v0 ++ continuation conts)]).
  - unfold group0. cbn [m_from m_rest].
    replace ("description:" ++ sp0 ++ v0 ++ continuation conts ++ post)
      with ((("description:" ++ sp0 ++ v0) ++ continuation conts) ++ post)
      by now rewrite <- !app_assoc.
    rewrite consumed_app, split_on_continuation; [|  |assumption].
    + cbn [map]. rewrite clean_first_line by assumption.
      f_equal. f_equal. f_equal.
      rewrite map_map. apply map_ext_in. intros l Hl.
      rewrite Forall_forall in Hconts. destruct (Hconts l Hl) as [_ H].
      now apply clean_continuation_line.
    + intros H. apply in_app_or in H as [H|H].
      * revert H. no_newline.
      * apply in_app_or in H as [H|H]; contradiction.
  - no_newline.
  - discriminate.
  - assumption.
  - intros prev Hb. now apply first_desc_re.
Qed.

(** ** The lines of the description *)

Lemma all_space_rev ws : all_space ws -> all_space (rev ws).
Proof.
  unfold all_space. rewrite !forallb_forall. intros H c Hc.
  apply H. now apply in_rev.
Qed.

Lemma clean_space_prefix ws l :
  all_space ws -> clean_desc_line (ws ++ l) = clean_desc_line l.
Proof.
  intros H. unfold clean_desc_line. now rewrite strip_space_prefix.
Qed.

(** The line of a key that has no value is cleaned to nothing. *)
Lemma clean_key_only ws :
  all_space ws -> clean_desc_line ("description:" ++ ws) = [].
Proof.
  intros H. unfold clean_desc_line.
  assert (E : strip ("description:" ++ ws) = "description:").
  { unfold strip, strip_by. cbn [lstrip_by String.list_ascii_of_string app].
    change (isspace "d") with false. cbv iota.
    change ("d"%char :: "e"%char :: "s"%char :: "c"%char :: "r"%char
            :: "i"%char :: "p"%char :: "t"%char :: "i"%char :: "o"%char
            :: "n"%char :: ":"%char :: ws)
      with ("description:" ++ ws).
    unfold rstrip_by. rewrite rev_app_distr.
    pose proof (lstrip_space_prefix (rev ws) (rev "description:")
                  (all_space_rev ws H)) as Hl.
    unfold lstrip in Hl. rewrite Hl. reflexivity. }
  rewrite E. reflexivity.
Qed.

(** Whitespace before a text, newlines among it, adds only lines that
    are cleaned to nothing. *)
Lemma cleaned_space_prefix : forall ws s, all_space ws ->
  filter truthy (map clean_desc_line (split_on NL (ws ++ s)))
  = filter truthy (map clean_desc_line (split_on NL s)).
Proof.
  induction ws as [|c ws IH]; intros s H; [reflexivity|].
  unfold all_space in H. cbn [forallb] in H.
  apply andb_true_iff in H as [Hc Hws].
  cbn [app split_on]. destruct (Ascii.eqb c NL).
  - cbn [map filter]. change (clean_desc_line []) with (@nil ascii).
    cbn [truthy]. now apply IH.
  - specialize (IH s Hws).
    destruct (split_on NL (ws ++ s)) as [|l ls] eqn:E.
    + exfalso. eapply split_on_nonempty. eassumption.
    + cbn [map filter] in *. rewrite <- IH.
      change (c :: l) with ([c] ++ l). rewrite clean_space_prefix.
      * reflexivity.
      * unfold all_space. cbn [forallb]. now rewrite Hc.
Qed.

Lemma clean_continuation_lines conts :
  map clean_desc_line (map (fun l : str => "  " ++ l) conts)
  = map clean_desc_line conts.
Proof.
  rewrite map_map. apply map_ext. intros l.
  now apply clean_space_prefix.
Qed.

Lemma clean_plain_lines conts :
  Forall (fun l : str => startswith "description:" (strip l) = false) conts ->
  map clean_desc_line conts = map strip conts.
Proof.
  intros H. apply map_ext_in. intros l Hl.
  rewrite Forall_forall in H. unfold clean_desc_line. now rewrite (H l Hl).
Qed.

(** The description when the line of the key holds a value. *)
Lemma desc_value_of_lines lines sp0 v0 conts post :
  Forall (other_line "description:") lines ->
  all_space sp0 -> ~ In NL sp0 -> starts_nonspace v0 -> ~ In NL v0 ->
  Forall (fun l : str => ~ In NL l) conts ->
  ends_block post ->
  desc_value_of
    (unlines lines ++ "description:" ++ sp0 ++ v0
       ++ continuation conts ++ post)
  = join " " (filter truthy
                (strip (lstrip_by (in_chars ">|") (strip v0))
                 :: map clean_desc_line conts)).
Proof.
  intros Hlines Hsp Hspnl Hv Hnl Hall Hpost.
  unfold desc_value_of, desc_re. cbn [Seq].
  rewrite (search_keyed "description:" _ lines _ post
             [(1, v0 ++ continuation conts)]).
  - unfold group0. cbn [m_from m_rest].
    replace ("description:" ++ sp0 ++ v0 ++ continuation conts ++ post)
      with ((("description:" ++ sp0 ++ v0) ++ continuation conts) ++ post)
      by now rewrite <- !app_assoc.
    rewrite consumed_app, split_on_continuation; [|  |assumption].
    + cbn [map]. rewrite clean_first_line by assumption.
      now rewrite clean_continuation_lines.
    + intros H. apply in_app_or in H as [H|H].
      * revert H. no_newline.
      * apply in_app_or in H as [H|H]; contradiction.
  - no_newline.
  - discriminate.
  - assumption.
  - intros prev Hb. now apply first_desc_re.
Qed.

(** The description when the line of the key holds no value: the
    whitespace after the key runs over the end of the line, and the
    text after it is taken as the first line. *)
Lemma desc_value_of_next_line lines w0 ws1 v0 conts post :
  Forall (other_line "description:") lines ->
  all_space w0 -> ~ In NL w0 -> all_space ws1 ->
  starts_nonspace v0 -> ~ In NL v0 ->
  Forall (fun l : str => ~ In NL l) conts ->
  ends_block post ->
  desc_value_of
    (unlines lines ++ "description:" ++ (w0 ++ NL :: ws1) ++ v0
       ++ continuation conts ++ post)
  = join " " (filter truthy (map clean_desc_line (v0 :: conts))).
Proof.
  intros Hlines Hw0 Hw0nl Hws1 Hv Hnl Hall Hpost.
  assert (Hsp : all_space (w0 ++ NL :: ws1)).
  { unfold all_space in *. rewrite forallb_app. cbn [forallb].
    rewrite Hw0, Hws1. reflexivity. }
  unfold desc_value_of, desc_re. cbn [Seq].
  rewrite (search_keyed "description:" _ lines _ post
             [(1, v0 ++ continuation conts)]).
  - unfold group0. cbn [m_from m_rest].
    replace ("description:" ++ (w0 ++ NL :: ws1) ++ v0
               ++ continuation conts ++ post)
      with ((("description:" ++ w0) ++ NL
               :: (ws1 ++ (v0 ++ continuation conts))) ++ post)
      by (rewrite <- !app_assoc; cbn [app];
          now rewrite <- !app_assoc).
    rewrite consumed_app, split_on_line.
    + cbn [map filter]. rewrite clean_key_only by assumption.
      cbn [truthy]. rewrite cleaned_space_prefix by assumption.
      rewrite split_on_continuation by assumption.
      cbn [map]. now rewrite clean_continuation_lines.
    + intros H. apply in_app_or in H as [H|H]; [|contradiction].
      revert H. no_newline.
  - no_newline.
  - discriminate.
  - assumption.
  - intros prev Hb. now apply first_desc_re.
Qed.

(** ** The description as worded, on a block *)

Lemma split_on_app sep : forall a b,
  split_on sep (a ++ sep :: b) = split_on sep a ++ split_on sep b.
Proof.
  induction a as [|c a IH]; intros b; cbn [app split_on].
  - now rewrite Ascii.eqb_refl.
  - rewrite IH. destruct (Ascii.eqb c sep); [reflexivity|].
    destruct (split_on sep a) as [|l ls] eqn:E; [|reflexivity].
    exfalso. eapply split_on_nonempty. eassumption.
Qed.

Lemma split_on_unlines : forall lines s,
  Forall (fun l : str => ~ In NL l) lines ->
  split_on NL (unlines lines ++ s) = lines ++ split_on NL s.
Proof.
  induction lines as [|l lines IH]; intros s H; [reflexivity|].
  inversion H as [|? ? Hl Hrest]; subst.
  unfold unlines. cbn [map concat]. fold (unlines lines).
  rewrite <- !app_assoc. cbn [app].
  rewrite split_on_line by assumption.
  now rewrite IH.
Qed.

(** The first piece of a split is a prefix of the text. *)
Lemma split_on_head sep : forall s,
  exists hd tl rest, split_on sep s = hd :: tl /\ s = hd ++ rest.
Proof.
  induction s as [|c s (hd & tl & rest & E & Hs)]; cbn [split_on].
  - exists [], [], []. now split.
  - destruct (Ascii.eqb c sep).
    + exists [], (split_on sep s), (c :: s). now split.
    + rewrite E. exists (c :: hd), tl, rest. split; [reflexivity|].
      cbn [app]. now rewrite <- Hs.
Qed.

Lemma drop_while_other k : forall (lines rest : list str),
  Forall (other_line k) lines ->
  drop_while (fun l : str => negb (startswith k l)) (lines ++ rest)
  = drop_while (fun l : str => negb (startswith k l)) rest.
Proof.
  induction lines as [|l lines IH]; intros rest H; [reflexivity|].
  inversion H as [|? ? [_ Hl] Hrest]; subst.
  cbn [app drop_while]. rewrite Hl. cbn [negb]. now apply IH.
Qed.

Lemma take_while_indented : forall (conts rest : list str),
  Forall (fun l : str => indented_by_two ("  " ++ l) = true) conts ->
  match rest with
  | [] => True
  | l :: _ => startswith "  " l = false
  end ->
  take_while indented_by_two (map (fun l : str => "  " ++ l) conts ++ rest)
  = map (fun l : str => "  " ++ l) conts.
Proof.
  induction conts as [|c conts IH]; intros rest H Hrest.
  - cbn [map app]. destruct rest as [|l rest]; [reflexivity|].
    cbn [take_while]. unfold indented_by_two. now rewrite Hrest.
  - inversion H as [|? ? Hc Hall]; subst.
    cbn [map app take_while]. rewrite Hc. now rewrite IH.
Qed.

(** The rule of the specification on a block whose continuation lines
    are indented by two spaces and no more. *)
Lemma description_as_worded_block lines sp0 v0 conts post :
  Forall (other_line "description:") lines ->
  all_space sp0 -> ~ In NL sp0 -> ~ In NL v0 ->
  Forall (fun l : str => ~ In NL l) conts ->
  Forall (fun l : str => indented_by_two ("  " ++ l) = true) conts ->
  ends_block post ->
  description_as_worded
    (unlines lines ++ "description:" ++ sp0 ++ v0
       ++ continuation conts ++ post)
  = join " " (filter truthy
                (strip (lstrip_by (in_chars ">|") (strip v0))
                 :: map strip conts)).
Proof.
  intros Hlines Hsp Hspnl Hnl Hall Htwo Hpost.
  assert (Hl0 : ~ In NL ("description:" ++ sp0 ++ v0)).
  { intros H. apply in_app_or in H as [H|H].
    - revert H. no_newline.
    - apply in_app_or in H as [H|H]; contradiction. }
  assert (Hsplit : exists rest,
             split_on NL (("description:" ++ sp0 ++ v0)
                            ++ continuation conts ++ post)
             = ("description:" ++ sp0 ++ v0)
               :: map (fun l : str => "  " ++ l) conts ++ rest /\
             match rest with
             | [] => True
             | l :: _ => startswith "  " l = false
             end).
  { destruct post as [|c post'].
    - exists []. rewrite !app_nil_r. split; [|exact I].
      now apply split_on_continuation.
    - destruct Hpost as [-> Hpost].
      exists (split_on NL post'). rewrite app_assoc, split_on_app.
      rewrite split_on_continuation by assumption. split; [reflexivity|].
      destruct (split_on_head NL post') as (hd & tl & rest & E & Hs).
      rewrite E. destruct (startswith "  " hd) eqn:Eh; [|reflexivity].
      apply startswith_inv in Eh as [t ->].
      rewrite Hs, <- !app_assoc, startswith_app in Hpost.
      discriminate Hpost. }
  destruct Hsplit as (rest & Hsplit & Hrest).
  unfold description_as_worded.
  replace ("description:" ++ sp0 ++ v0 ++ continuation conts ++ post)
    with (("description:" ++ sp0 ++ v0) ++ continuation conts ++ post)
    by now rewrite <- !app_assoc.
  rewrite split_on_unlines.
  2:{ eapply Forall_impl; [|exact Hlines]. now intros l [H _]. }
  rewrite drop_while_other by assumption.
  rewrite Hsplit. cbn [drop_while].
  rewrite startswith_app. cbn [negb].
  rewrite take_while_indented by assumption.
  rewrite skipn_app, skipn_all, Nat.sub_diag. cbn [skipn app].
  rewrite strip_space_prefix by assumption.
  cbn [map]. rewrite map_map.
  assert (E : map (fun l : str => strip ("  " ++ l)) conts = map strip conts).
  { apply map_ext. intros l. now apply strip_space_prefix. }
  now rewrite E.
Qed.

(** ** A key with nothing after it *)

Lemma first_newline (s : str) :
  ~ In NL s \/ exists a b, s = a ++ NL :: b /\ ~ In NL a.
Proof.
  induction s as [|c s IH]; [left; intros []|].
  destruct (Ascii.eqb c NL) eqn:E.
  - apply Ascii.eqb_eq in E. subst c. right. exists [], s.
    split; [reflexivity|intros []].
  - apply Ascii.eqb_neq in E. destruct IH as [IH|(a & b & -> & Ha)].
    + left. intros [H|H]; [congruence|contradiction].
    + right. exists (c :: a), b. split; [reflexivity|].
      intros [H|H]; [congruence|contradiction].
Qed.

Lemma first_desc_re_empty prev ws :
  at_bol prev = true -> all_space ws ->
  exists p1,
    first_match desc_re prev ("description:" ++ ws) [] (p1, [], [(1, [])]).
Proof.
  intros Hb Hsp. eexists. unfold desc_re. cbn [Seq].
  eapply first_cat; [now apply first_bol|].
  eapply first_cat; [apply first_lit|].
  eapply first_cat.
  { pose proof (first_rep_cls isspace ws (after prev "description:") [] []
                  Hsp I) as H.
    rewrite app_nil_r in H. exact H. }
  pose proof (first_grp 1 (Cat (Rep true (Cls not_nl)) (Rep true cont_re))
                (after (after prev "description:") ws) [] []
                (after (after prev "description:") ws) [] []) as H.
  cbn [consumed length Nat.sub firstn set_cap filter] in H.
  apply H.
  eapply first_cat; apply first_rep_stop; reflexivity.
Qed.

(** The description when nothing but whitespace follows the key. *)
Lemma desc_value_of_no_value lines ws :
  Forall (other_line "description:") lines -> all_space ws ->
  desc_value_of (unlines lines ++ "description:" ++ ws) = [].
Proof.
  intros Hlines Hws.
  unfold desc_value_of, desc_re. cbn [Seq].
  rewrite (search_keyed "description:" _ lines _ [] [(1, [])]).
  - unfold group0. cbn [m_from m_rest].
    pose proof (consumed_app ("description:" ++ ws) []) as Ec.
    rewrite app_nil_r in Ec. rewrite Ec.
    assert (E : filter truthy
                  (map clean_desc_line
                     (split_on NL ("description:" ++ ws))) = []).
    { destruct (first_newline ws) as [Hnl|(w0 & ws1 & -> & Hnl)].
      - rewrite split_on_last.
        + cbn [map filter]. now rewrite clean_key_only.
        + intros H. apply in_app_or in H as [H|H]; [|contradiction].
          revert H. no_newline.
      - unfold all_space in Hws. rewrite forallb_app in Hws.
        apply andb_true_iff in Hws as [Hw0 Hws1].
        cbn [forallb] in Hws1. apply andb_true_iff in Hws1 as [_ Hws1].
        rewrite app_assoc, split_on_line.
        + cbn [map filter]. rewrite clean_key_only by assumption.
          cbn [truthy].
          pose proof (cleaned_space_prefix ws1 [] Hws1) as Hc.
          rewrite app_nil_r in Hc. rewrite Hc. reflexivity.
        + intros H. apply in_app_or in H as [H|H]; [|contradiction].
          revert H. no_newline. }
    now rewrite E.
  - no_newline.
  - discriminate.
  - assumption.
  - intros prev Hb. now apply first_desc_re_empty.
Qed.

(** The name when the frontmatter ends with the key. *)
Lemma name_value_of_no_value lines :
  Forall (other_line "name:") lines ->
  name_value_of (unlines lines ++ "name:") = [].
Proof.
  intros Hlines. unfold name_value_of, name_re, search. cbn [Seq].
  destruct lines as [|l lines]; [reflexivity|].
  rewrite search_skip_lines.
  - reflexivity.
  - no_newline.
  - discriminate.
  - assumption.
  - discriminate.
Qed.

(** C6.  The name is the first text after the key, stripped of
    whitespace and of surrounding quotes.  The description takes the
    line of the key and the lines after it that start with two spaces,
    deeper indentation included: every line is stripped, the line of
    the key loses the key and the block indicators at its front, and so
    does a continuation line that repeats the key; the empty lines are
    dropped and the rest joined by single spaces.  When no continuation
    line repeats the key the lines are joined as they are, stripped,
    and when in addition every one is indented by two spaces and no
    more, this is the value that the wording of the specification
    gives.  When nothing follows the key on its line the text after the
    whitespace is taken as the first line, indicators and all; when
    nothing but whitespace follows the key at all, the value is empty.
    The joined text is what rule 11 measures. *)
Theorem frontmatter_fields_spec :
  (forall (lines : list str) (sp v post : str),
     Forall (other_line "name:") lines -> all_space sp ->
     starts_nonspace v -> ~ In NL v -> ends_line post ->
     name_value_of (unlines lines ++ "name:" ++ sp ++ v ++ post)
     = strip_by (in_chars [DQUOTE; SQUOTE]) (strip v)) /\
  (forall (lines : list str) (sp0 v0 : str) (conts : list str) (post : str),
     Forall (other_line "description:") lines ->
     all_space sp0 -> ~ In NL sp0 -> starts_nonspace v0 -> ~ In NL v0 ->
     Forall (fun l : str => ~ In NL l) conts ->
     ends_block post ->
     let fm := unlines lines ++ "description:" ++ sp0 ++ v0
                 ++ continuation conts ++ post in
     let first := strip (lstrip_by (in_chars ">|") (strip v0)) in
     let clean := fun l : str =>
       if startswith "description:" (strip l)
       then strip (lstrip_by (in_chars ">|")
                     (strip (skipn (length "description:") (strip l))))
       else strip l in
     desc_value_of fm
     = join " " (filter truthy (first :: map clean conts)) /\
     (Forall (fun l : str => startswith "description:" (strip l) = false)
             conts ->
      desc_value_of fm = join " " (filter truthy (first :: map strip conts)) /\
      (Forall (fun l : str => indented_by_two ("  " ++ l) = true) conts ->
       desc_value_of fm = description_as_worded fm))) /\
  (forall (lines : list str) (w0 ws1 v0 : str) (conts : list str)
          (post : str),
     Forall (other_line "description:") lines ->
     all_space w0 -> ~ In NL w0 -> all_space ws1 ->
     starts_nonspace v0 -> ~ In NL v0 ->
     Forall (fun l : str => ~ In NL l) conts ->
     ends_block post ->
     let clean := fun l : str =>
       if startswith "description:" (strip l)
       then strip (lstrip_by (in_chars ">|")
                     (strip (skipn (length "description:") (strip l))))
       else strip l in
     desc_value_of
       (unlines lines ++ "description:" ++ (w0 ++ NL :: ws1) ++ v0
          ++ continuation conts ++ post)
     = join " " (filter truthy (map clean (v0 :: conts)))) /\
  (forall (lines : list str) (ws : str),
     all_space ws ->
     (Forall (other_line "description:") lines ->
      desc_value_of (unlines lines ++ "description:" ++ ws) = []) /\
     (Forall (other_line "name:") lines ->
      name_value_of (unlines lines ++ "name:") = [])) /\
  (let fm := fst (count_chars_excluding_frontmatter block_manifest) in
   name_value_of fm = "my-skill" /\
   desc_value_of fm = "Use when the user asks for a plan." /\
   In (rule11 "Use when the user asks for a plan.")
      (content_checks ["SKILL.md" : str] "my-skill" block_manifest) /\
   label (rule11 "Use when the user asks for a plan.")
   = "description length: 34 chars (limit: 1024)").
Proof.
  split; [exact name_value_of_line|].
  split; [|split; [exact desc_value_of_next_line|split]].
  - intros lines sp0 v0 conts post Hlines Hsp Hspnl Hv Hnl Hall Hpost
           fm first clean.
    change clean with clean_desc_line.
    pose proof (desc_value_of_lines lines sp0 v0 conts post
                  Hlines Hsp Hspnl Hv Hnl Hall Hpost) as E.
    fold fm first in E. split; [exact E|].
    intros Hkey. rewrite E, (clean_plain_lines _ Hkey).
    split; [reflexivity|]. intros Htwo. subst fm first.
    symmetry. now apply description_as_worded_block.
  - intros lines ws Hws. split.
    + intros Hlines. now apply desc_value_of_no_value.
    + apply name_value_of_no_value.
  - assert (E : desc_value_of
                  (fst (count_chars_excluding_frontmatter block_manifest))
                = "Use when the user asks for a plan.") by reflexivity.
    split; [reflexivity|]. split; [exact E|]. split; [|reflexivity].
    apply content_checks_In. rewrite E. auto 20.
Qed.

(** The theorem at a name in quotes and at a folded description of
    two continuation lines, on which the wording of the specification
    gives the same value. *)
Lemma frontmatter_fields_witness :
  name_value_of
    (unlines ["title: x" : str]
       ++ "name:" ++ " " ++ (DQUOTE :: "my-skill" ++ [DQUOTE]) ++ [])
  = "my-skill" /\
  desc_value_of
    (unlines ["name: my-skill" : str]
       ++ "description:" ++ " " ++ ">"
       ++ continuation [("Use when the user" : str);
                        ("asks for a plan." : str)]
       ++ [NL] ++ "metadata:")
  = "Use when the user asks for a plan." /\
  description_as_worded
    (unlines ["name: my-skill" : str]
       ++ "description:" ++ " " ++ ">"
       ++ continuation [("Use when the user" : str);
                        ("asks for a plan." : str)]
       ++ [NL] ++ "metadata:")
  = "Use when the user asks for a plan.".
Proof.
  destruct frontmatter_fields_spec as (Hname & Hdesc & _). split.
  - rewrite Hname.
    + reflexivity.
    + apply Forall_cons; [|apply Forall_nil].
      split; [no_newline|reflexivity].
    + reflexivity.
    + reflexivity.
    + no_newline.
    + exact I.
  - assert (H1 : Forall (other_line "description:")
                   [("name: my-skill" : str)]).
    { apply Forall_cons; [|apply Forall_nil].
      split; [no_newline|reflexivity]. }
    assert (H2 : all_space " ") by reflexivity.
    assert (H3 : ~ In NL (" " : str)) by no_newline.
    assert (H4 : starts_nonspace ">") by reflexivity.
    assert (H5 : ~ In NL (">" : str)) by no_newline.
    assert (H6 : Forall (fun l : str => ~ In NL l)
                   [("Use when the user" : str); ("asks for a plan." : str)]).
    { apply Forall_cons; [|apply Forall_cons; [|apply Forall_nil]];
        no_newline. }
    assert (H7 : ends_block ([NL] ++ "metadata:")) by (split; reflexivity).
    destruct (Hdesc _ _ _ _ _ H1 H2 H3 H4 H5 H6 H7) as (_ & Hplain).
    destruct Hplain as (Hjoin & Hworded).
    { apply Forall_cons; [|apply Forall_cons; [|apply Forall_nil]];
        reflexivity. }
    split.
    + rewrite Hjoin. reflexivity.
    + rewrite <- Hworded; [rewrite Hjoin; reflexivity|].
      apply Forall_cons; [|apply Forall_cons; [|apply Forall_nil]];
        reflexivity.
Defined.

(** C6 as worded fails on a block that holds a line indented by four
    spaces, which is taken as a continuation line, and on a block
    whose continuation line repeats the key, which loses it. *)
Lemma frontmatter_fields_counterexample :
  indented_by_two "    four spaces" = false /\
  desc_value_of deep_block = "four spaces two spaces" /\
  description_as_worded deep_block = [] /\
  indented_by_two "  description: foo" = true /\
  desc_value_of key_in_block = "a foo" /\
  description_as_worded key_in_block = "a description: foo".
Proof.
  repeat split; vm_compute; reflexivity.
Qed.

(** ** C9: the dry run of the scaffolder *)

(** C9.  A dry run leaves the disk as it was, whichever optional
    directories are requested, and whatever the name is. *)
Theorem dry_run_writes_nothing :
  forall (env : ScaffoldEnv) (args : ScaffoldArgs) (d : Disk),
  sc_dry_run args = true ->
  snd (fst (scaffold env args d)) = d.
Proof.
  intros env args d Hdry. unfold scaffold.
  destruct (negb (is_kebab_case (sc_name args))); [reflexivity|].
  destruct (reserved_segment (sc_name args)); [reflexivity|].
  now rewrite Hdry.
Qed.

(** The theorem at a dry run that asks for all three directories. *)
Lemma dry_run_writes_nothing_witness :
  sc_dry_run dry_run_args = true /\
  fst (fst (scaffold plain_env dry_run_args (MkDisk [] []))) = Previewed /\
  snd (fst (scaffold plain_env dry_run_args (MkDisk [] []))) = MkDisk [] [].
Proof.
  split; [reflexivity|]. split; [reflexivity|].
  apply (dry_run_writes_nothing plain_env dry_run_args (MkDisk [] [])).
  reflexivity.
Defined.

(** * Further properties of the validator *)

(** ** The split into frontmatter and body *)

Lemma find_at_none sub : forall s i,
  find_at sub s i = None <-> contains sub s = false.
Proof.
  induction s as [|c s IH]; intros i; cbn [find_at contains].
  - destruct (startswith sub []); split; intros H; try discriminate;
      reflexivity.
  - destruct (startswith sub (c :: s)); cbn [orb].
    + split; discriminate.
    + apply IH.
Qed.

Lemma lstrip_by_length p (s : str) : length (lstrip_by p s) <= length s.
Proof.
  induction s as [|c s IH]; cbn [lstrip_by]; [lia|].
  destruct (p c); cbn [length]; lia.
Qed.

Lemma strip_by_length p (s : str) : length (strip_by p s) <= length s.
Proof.
  unfold strip_by, rstrip_by. rewrite length_rev.
  etransitivity; [apply lstrip_by_length|]. rewrite length_rev.
  apply lstrip_by_length.
Qed.

(** The first occurrence of the delimiter, when no earlier one starts
    in [a]. *)
Lemma find_at_delimiter b : forall a i,
  contains "---" (a ++ "--") = false ->
  find_at "---" (a ++ "---" ++ b) i = Some (i + length a).
Proof.
  induction a as [|c a IH]; intros i H.
  - cbn. f_equal. lia.
  - cbn [app] in H. cbn [contains] in H.
    apply orb_false_iff in H as [Hhere Hlater].
    cbn [app find_at].
    assert (E : startswith "---" (c :: a ++ "---" ++ b) = false).
    { destruct a as [|x [|y a]]; cbn in Hhere |- *; exact Hhere. }
    rewrite E, IH by assumption. cbn [length]. f_equal. lia.
Qed.

(** X1.  The split falls back to an empty frontmatter and the untouched
    text as body exactly when the text does not start with the
    delimiter or holds no second one. *)
Theorem split_fallback_iff : forall text : str,
  count_chars_excluding_frontmatter text = ([], text) <->
  startswith "---" text = false \/ contains "---" (skipn 3 text) = false.
Proof.
  intros text. unfold count_chars_excluding_frontmatter, find.
  destruct (startswith "---" text) eqn:Hs; [|split; auto].
  apply startswith_inv in Hs as [t Ht].
  assert (E1 : (3 <=? length text) = true).
  { subst text. apply Nat.leb_le. rewrite length_app. cbn. lia. }
  assert (E2 : skipn 3 text = t) by (subst text; reflexivity).
  rewrite E1, E2.
  destruct (find_at "---" t 3) as [e|] eqn:Hf.
  - split.
    + intros H. exfalso. inversion H as [[Hfm Hbody]].
      pose proof (strip_by_length isspace (skipn (e + 3) text)) as H1.
      fold strip in H1. rewrite Hbody in H1.
      rewrite length_skipn in H1. apply Nat.leb_le in E1. lia.
    + intros [H|H]; [discriminate|].
      apply find_at_none with (i := 3) in H. congruence.
  - split; [|reflexivity]. intros _. right.
    now apply find_at_none in Hf.
Qed.

Lemma split_at_first_delimiter_lemma (a b : str) :
  contains "---" (a ++ "--") = false ->
  count_chars_excluding_frontmatter ("---" ++ a ++ "---" ++ b)
  = (strip a, strip b).
Proof.
  intros H. unfold count_chars_excluding_frontmatter, find.
  rewrite startswith_app.
  replace (3 <=? length ("---" ++ a ++ "---" ++ b)) with true
    by (symmetry; apply Nat.leb_le; rewrite length_app; cbn; lia).
  change (skipn 3 ("---" ++ a ++ "---" ++ b)) with (a ++ "---" ++ b).
  rewrite find_at_delimiter by assumption.
  replace (3 + length a - 3) with (length a) by lia.
  rewrite firstn_app, firstn_all, Nat.sub_diag. cbn [firstn].
  rewrite app_nil_r.
  replace (3 + length a + 3) with (length ("---" ++ a ++ "---")).
  - replace ("---" ++ a ++ "---" ++ b) with (("---" ++ a ++ "---") ++ b)
      by now rewrite <- !app_assoc.
    rewrite skipn_app, skipn_all, Nat.sub_diag. reflexivity.
  - rewrite !length_app. cbn. lia.
Qed.

(** X2.  After an opening delimiter the frontmatter runs up to the
    first later occurrence of the delimiter, wherever in a line it
    stands; the frontmatter and the body are returned stripped. *)
Theorem split_at_first_delimiter : forall a b : str,
  contains "---" (a ++ "--") = false ->
  count_chars_excluding_frontmatter ("---" ++ a ++ "---" ++ b)
  = (strip a, strip b).
Proof.
  intros a b H. apply split_at_first_delimiter_lemma. exact H.
Qed.

(** The theorem at a frontmatter whose description holds the delimiter
    in the middle of a line: the split ends there. *)
Lemma split_at_first_delimiter_witness :
  count_chars_excluding_frontmatter
    ("---" ++ ([NL] ++ "description: a") ++ "---" ++ ("b" ++ [NL] ++ "---"))
  = ("description: a" : str, "b" ++ [NL] ++ "---").
Proof.
  rewrite (split_at_first_delimiter ([NL] ++ "description: a")
             ("b" ++ [NL] ++ "---") eq_refl).
  reflexivity.
Defined.

(** ** Counting words *)

Lemma split_ws_aux_length_sep c b : forall a cur,
  isspace c = true ->
  length (split_ws_aux cur (a ++ c :: b))
  = length (split_ws_aux cur a) + length (split_ws_aux [] b).
Proof.
  induction a as [|x a IH]; intros cur Hc.
  - cbn [app split_ws_aux]. rewrite Hc. destruct cur; reflexivity.
  - cbn [app split_ws_aux]. destruct (isspace x).
    + destruct cur; cbn [length]; rewrite IH by assumption; reflexivity.
    + now apply IH.
Qed.

Lemma split_ws_aux_nil : forall s cur,
  split_ws_aux cur s = [] <-> cur = [] /\ all_space s.
Proof.
  unfold all_space.
  induction s as [|c s IH]; intros cur; cbn [split_ws_aux forallb].
  - destruct cur; split; intros H; try discriminate; auto.
    destruct H; discriminate.
  - destruct (isspace c); cbn [andb].
    + destruct cur.
      * apply IH.
      * split; [discriminate|]. intros [H _]; discriminate.
    + rewrite IH. split; [intros [H _]; discriminate|].
      intros [_ H]; discriminate.
Qed.

(** X3.  The word count is 0 exactly for a text of whitespace only, and
    it adds up over a whitespace character: the words before it and the
    words after it are counted apart. *)
Theorem word_count_compose : forall (a b : str) (c : ascii),
  (word_count a = 0 <-> all_space a) /\
  (isspace c = true ->
   word_count (a ++ c :: b) = word_count a + word_count b).
Proof.
  intros a b c. unfold word_count, split_ws. split.
  - rewrite length_zero_iff_nil, split_ws_aux_nil. tauto.
  - apply split_ws_aux_length_sep.
Qed.

(** ** Angle brackets *)

Lemma angle_match_iff (s : str) :
  has_match angle_re s = true <-> In "<"%char s \/ In ">"%char s.
Proof.
  rewrite has_match_iff. unfold angle_re. split.
  - intros (pre & m & post & -> & L).
    apply lang_cls_inv in L as (c & -> & Hc).
    unfold in_chars in Hc.
    cbn [existsb String.list_ascii_of_string] in Hc.
    rewrite orb_false_r in Hc.
    destruct (Ascii.eqb c "<") eqn:E1.
    + apply Ascii.eqb_eq in E1. subst c.
      left. apply in_or_app. right. now left.
    + cbn [orb] in Hc. apply Ascii.eqb_eq in Hc. subst c.
      right. apply in_or_app. right. now left.
  - intros [H|H]; destruct (in_split _ _ H) as (pre & post & ->).
    + exists pre, ["<"%char], post. split; [reflexivity|].
      now constructor.
    + exists pre, [">"%char], post. split; [reflexivity|].
      now constructor.
Qed.

(** X4.  Rules 12 and 14 pass exactly when the description, and the
    body, hold neither of the two angle brackets. *)
Theorem angle_rules_spec : forall s : str,
  (passed (rule12 s) = true <-> ~ In "<"%char s /\ ~ In ">"%char s) /\
  (passed (rule14 s) = true <-> ~ In "<"%char s /\ ~ In ">"%char s).
Proof.
  intros s. cbn [rule12 rule14 passed].
  assert (H : negb (has_match angle_re s) = true <->
              ~ In "<"%char s /\ ~ In ">"%char s).
  { pose proof (angle_match_iff s) as H.
    destruct (has_match angle_re s); cbn [negb]; split.
    - discriminate.
    - intros [H1 H2]. destruct (proj1 H eq_refl); contradiction.
    - intros _. split; intros HA;
        assert (false = true) by (apply H; auto); discriminate.
    - reflexivity. }
  split; exact H.
Qed.

(** ** Missing keys *)

Lemma search_last_line k rest_re : forall l prev,
  k <> [] -> ~ In NL l ->
  at_bol prev = false \/ startswith k l = false ->
  search_from (Cat Bol (Cat (Lit k) rest_re)) prev l = None.
Proof.
  induction l as [|c l IH]; intros prev Hk Hnl H.
  - cbn [search_from]. rewrite run_keyed_nil; [reflexivity|].
    right. destruct k; [congruence|reflexivity].
  - cbn [search_from]. rewrite run_keyed_nil by assumption.
    apply IH; [assumption| |].
    + intros Hin. apply Hnl. now right.
    + left. cbn [at_bol]. apply Ascii.eqb_neq.
      intros ->. apply Hnl. now left.
Qed.

Lemma search_keyed_none k rest_re lines l :
  ~ In NL k -> k <> [] ->
  Forall (other_line k) lines -> other_line k l ->
  search (Cat Bol (Cat (Lit k) rest_re)) (unlines lines ++ l) = None.
Proof.
  intros Hno Hk Hlines [Hnl Hl]. unfold search.
  destruct lines as [|l0 lines].
  - apply search_last_line; auto.
  - rewrite search_skip_lines; try assumption; [|discriminate].
    apply search_last_line; auto.
Qed.

(** X5.  A frontmatter in which no line starts with the key gives an
    empty name, and likewise an empty description.  With an empty name
    rule 6 fails and rules 7 to 9 add no result; with an empty
    description rule 10 fails and rules 11 to 13 add no result. *)
Theorem missing_keys_spec :
  (forall (lines : list str) (l : str),
     Forall (other_line "name:") lines -> other_line "name:" l ->
     name_value_of (unlines lines ++ l) = []) /\
  (forall (lines : list str) (l : str),
     Forall (other_line "description:") lines ->
     other_line "description:" l ->
     desc_value_of (unlines lines ++ l) = []) /\
  (forall (entries : list str) (folder raw : str),
     name_value_of (fst (count_chars_excluding_frontmatter raw)) = [] ->
     passed (rule6 []) = false /\
     forall r, In r (content_checks entries folder raw) ->
               startswith "name " (label r) = true -> r = rule6 []) /\
  (forall (entries : list str) (folder raw : str),
     desc_value_of (fst (count_chars_excluding_frontmatter raw)) = [] ->
     passed (rule10 []) = false /\
     forall r, In r (content_checks entries folder raw) ->
               startswith "description " (label r) = true -> r = rule10 []).
Proof.
  split; [|split; [|split]].
  - intros lines l Hlines Hl. unfold name_value_of, name_re. cbn [Seq].
    rewrite search_keyed_none; try assumption; [reflexivity| |discriminate].
    no_newline.
  - intros lines l Hlines Hl. unfold desc_value_of, desc_re. cbn [Seq].
    rewrite search_keyed_none; try assumption; [reflexivity| |discriminate].
    no_newline.
  - intros entries folder raw Hname. split; [reflexivity|].
    intros r Hin Hlab. apply content_checks_In in Hin.
    rewrite Hname in Hin. cbn [truthy] in Hin.
    repeat (destruct Hin as [Hin|Hin]);
      try (destruct Hin as (Ht & _); discriminate Ht);
      try (destruct Hin as (_ & Hin));
      subst r; try reflexivity; discriminate Hlab.
  - intros entries folder raw Hdesc. split; [reflexivity|].
    intros r Hin Hlab. apply content_checks_In in Hin.
    rewrite Hdesc in Hin. cbn [truthy] in Hin.
    repeat (destruct Hin as [Hin|Hin]);
      try (destruct Hin as (Ht & _); discriminate Ht);
      try (destruct Hin as (_ & _ & Hin)); try (destruct Hin as (_ & Hin));
      subst r; try reflexivity; discriminate Hlab.
Qed.

(** ** When reading fails *)

(** X6.  [run_checks] raises exactly when the path is a directory and
    either listing it raises, or it holds the manifest and reading the
    manifest raises; the process then prints no report and exits
    with 1. *)
Theorem run_checks_raises_iff : forall (w : World) (prog skill_dir : str),
  let d := abspath w skill_dir in
  (run_checks w skill_dir = None <->
   isdir w d = true /\
   (listdir w d = None \/
    exists entries, listdir w d = Some entries /\
                    In ("SKILL.md" : str) entries /\
                    read_text w (path_join d "SKILL.md") = None)) /\
  (run_checks w skill_dir = None ->
   main w [prog; skill_dir] = MkExit [] 1).
Proof.
  intros w prog skill_dir d. split.
  - unfold run_checks. fold d.
    destruct (isdir w d); cbn [negb].
    + destruct (listdir w d) as [entries|].
      * destruct (filter _ entries) as [|e l] eqn:E.
        -- split; [discriminate|].
           intros (_ & [H|(entries' & H & Hin & _)]); [discriminate|].
           injection H as <-. apply skill_md_filter in E. contradiction.
        -- assert (Hin : In ("SKILL.md" : str) entries).
           { destruct (in_dec (list_eq_dec ascii_dec)
                         ("SKILL.md" : str) entries) as [H|H]; [exact H|].
             apply skill_md_filter in H. congruence. }
           destruct (read_text w (path_join d "SKILL.md")) eqn:Hr.
           ++ split; [discriminate|].
              intros (_ & [H|(entries' & H & _ & H')]); discriminate.
           ++ split; [|reflexivity]. intros _. split; [reflexivity|].
              right. now exists entries.
      * split; [|reflexivity]. intros _. split; [reflexivity|]. now left.
    + split; [discriminate|]. intros [H _]; discriminate.
  - intros H. unfold main. cbn [length Nat.ltb Nat.leb nth].
    now rewrite H.
Qed.

(** ** When the validation succeeds *)

Lemma content_checks_passed entries folder raw :
  let fm := fst (count_chars_excluding_frontmatter raw) in
  let body := snd (count_chars_excluding_frontmatter raw) in
  let name := name_value_of fm in
  let desc := desc_value_of fm in
  map passed (content_checks entries folder raw)
  = [passed (rule3 entries); passed (rule4 folder); passed (rule5 raw);
     truthy name]
    ++ (if truthy name then [passed (rule7 name)] else [])
    ++ (if truthy name && is_kebab_case folder
        then [passed (rule8 name folder)] else [])
    ++ (if truthy name then [passed (rule9 name)] else [])
    ++ [truthy desc]
    ++ (if truthy desc
        then [passed (rule11 desc); passed (rule12 desc);
              passed (rule13 desc)]
        else [])
    ++ [passed (rule14 body); passed (rule15 raw)].
Proof.
  unfold content_checks.
  destruct (count_chars_excluding_frontmatter raw) as [fm body].
  cbn [fst snd].
  destruct (truthy (name_value_of fm)) eqn:En,
    (truthy (desc_value_of fm)) eqn:Ed,
    (is_kebab_case folder) eqn:Ef;
    cbn [map app andb rule6 rule10 passed]; rewrite ?En, ?Ed, ?Ef;
    reflexivity.
Qed.

Lemma all_flags_iff (b3 b4 b5 b6 b7 b8 b9 b10 b11 b12 b13 b14 b15 : bool) :
  forallb (fun b : bool => b)
    ([b3; b4; b5; b6]
     ++ (if b6 then [b7] else [])
     ++ (if b6 && b4 then [b8] else [])
     ++ (if b6 then [b9] else [])
     ++ [b10]
     ++ (if b10 then [b11; b12; b13] else [])
     ++ [b14; b15])
  = b3 && b4 && b5 && b6 && b7 && b8 && b9 && b10 && b11 && b12 && b13
    && b14 && b15.
Proof.
  destruct b6, b10, b4; cbn [app forallb andb];
    rewrite ?andb_true_r, ?andb_false_r; try reflexivity;
    repeat rewrite andb_assoc; reflexivity.
Qed.

Lemma failed_count_zero results :
  failed_count results = 0 <-> forallb (fun b : bool => b) (map passed results) = true.
Proof.
  unfold failed_count. induction results as [|r results IH]; [tauto|].
  cbn [filter map forallb]. destruct (passed r); cbn [negb andb length].
  - exact IH.
  - split; discriminate.
Qed.

Lemma main_status_zero w prog skill_dir results :
  run_checks w skill_dir = Some results ->
  (status (main w [prog; skill_dir]) = 0 <->
   failed_count results = 0 /\
   (forall before t later,
      fst (print_report w results skill_dir) = before ++ t :: later ->
      can_print w before t = true) /\
   can_flush w (fst (print_report w results skill_dir)) = true).
Proof.
  intros Hrun. rewrite (main_report _ _ _ _ _ Hrun).
  unfold exit_process. cbn [status].
  destruct (print_report_nonempty w results skill_dir)
    as (title & more & E).
  split.
  - destruct (snd (emit w [] (fst (print_report w results skill_dir))))
      eqn:Hret.
    + pose proof (emit_all_inv _ _ _ Hret) as Hall. cbn [app] in Hall.
      rewrite (emit_all w _ [] Hall). cbn [fst app]. rewrite E.
      cbn [flushed]. intros H.
      destruct (can_flush w (title :: more)); [|discriminate H].
      destruct (failed_count results); [|discriminate H].
      rewrite <- E. auto.
    + destruct (flushed w _); discriminate.
  - intros (Hz & Hall & Hflush).
    rewrite (emit_all w _ [] Hall). cbn [fst snd app].
    rewrite E in *. cbn [flushed]. now rewrite Hflush, Hz.
Qed.

Lemma main_status_raise w prog skill_dir :
  run_checks w skill_dir = None -> status (main w [prog; skill_dir]) = 1.
Proof.
  intros Hrun. unfold main. cbn [length Nat.ltb Nat.leb nth].
  now rewrite Hrun.
Qed.

(** X7.  The process exits with 0 exactly when the path is a directory
    that holds SKILL.md, the manifest can be read, every content rule
    holds, and the report is printed and flushed.  The content rules:
    no README, a kebab-case folder name, valid delimiters, a name
    equal to the folder name and free of reserved words, a non-empty
    description of at most 1024 characters without angle brackets and
    with a trigger phrase, a body without angle brackets and at most
    5000 words. *)
Theorem validation_success_iff : forall (w : World) (prog skill_dir : str),
  let d := abspath w skill_dir in
  let folder := basename d in
  status (main w [prog; skill_dir]) = 0 <->
  isdir w d = true /\
  exists entries raw,
    listdir w d = Some entries /\
    In ("SKILL.md" : str) entries /\
    read_text w (path_join d "SKILL.md") = Some raw /\
    let fm := fst (count_chars_excluding_frontmatter raw) in
    let body := snd (count_chars_excluding_frontmatter raw) in
    let name := name_value_of fm in
    let desc := desc_value_of fm in
    let report :=
      fst (print_report w
             (directory_found d :: manifest_found
              :: content_checks entries folder raw) skill_dir) in
    existsb names_readme entries = false /\
    is_kebab_case folder = true /\
    fm_valid raw = true /\
    name = folder /\
    reserved_found name = None /\
    desc <> [] /\
    length desc <= 1024 /\
    has_match angle_re desc = false /\
    existsb (fun sig : str => contains sig (lower desc)) trigger_signals
      = true /\
    has_match angle_re body = false /\
    word_count raw <= 5000 /\
    (forall before t later,
       report = before ++ t :: later -> can_print w before t = true) /\
    can_flush w report = true.
Proof.
  intros w prog skill_dir d folder.
  destruct (run_checks w skill_dir) as [results|] eqn:Hrun.
  2:{ rewrite main_status_raise by assumption.
      split; [discriminate|].
      intros (Hdir & entries & raw & Hls & Hin & Hread & _).
      exfalso. unfold run_checks in Hrun. fold d in Hrun.
      rewrite Hdir, Hls in Hrun. cbn [negb] in Hrun.
      destruct (filter _ entries); [discriminate|].
      rewrite Hread in Hrun. discriminate. }
  rewrite (main_status_zero _ _ _ _ Hrun), failed_count_zero.
  unfold run_checks in Hrun. fold d in Hrun.
  destruct (isdir w d) eqn:Hdir; cbn [negb] in Hrun.
  2:{ injection Hrun as <-. split; [intros [H _]; discriminate H|].
      intros [H _]; discriminate. }
  destruct (listdir w d) as [entries|] eqn:Hls; [|discriminate].
  destruct (filter _ entries) as [|e l] eqn:E.
  { injection Hrun as <-. split; [intros [H _]; discriminate H|].
    intros (_ & entries' & raw & H & Hin & _).
    injection H as <-. apply skill_md_filter in E. contradiction. }
  assert (Hin : In ("SKILL.md" : str) entries).
  { destruct (in_dec (list_eq_dec ascii_dec) ("SKILL.md" : str) entries)
      as [H|H]; [exact H|].
    apply skill_md_filter in H. congruence. }
  destruct (read_text w (path_join d "SKILL.md")) as [raw|] eqn:Hread;
    [|discriminate].
  injection Hrun as <-. fold folder.
  change (([MkCheck "Skill directory exists" true d []]
             ++ [MkCheck "SKILL.md found (exact case)" true [] []])
            ++ content_checks entries folder raw)
    with (directory_found d :: manifest_found
          :: content_checks entries folder raw).
  set (report := fst (print_report w _ skill_dir)).
  cbn [map forallb passed directory_found manifest_found andb].
  rewrite content_checks_passed, all_flags_iff.
  cbn [rule3 rule4 rule5 rule7 rule8 rule9 rule11 rule12 rule13 rule14
         rule15 passed].
  set (fm := fst (count_chars_excluding_frontmatter raw)).
  set (body := snd (count_chars_excluding_frontmatter raw)).
  set (name := name_value_of fm). set (desc := desc_value_of fm).
  split.
  - intros (H & Hp & Hf).
    apply andb_true_iff in H as [H H15]. apply andb_true_iff in H as [H H14].
    apply andb_true_iff in H as [H H13]. apply andb_true_iff in H as [H H12].
    apply andb_true_iff in H as [H H11]. apply andb_true_iff in H as [H H10].
    apply andb_true_iff in H as [H H9]. apply andb_true_iff in H as [H H8].
    apply andb_true_iff in H as [H H7]. apply andb_true_iff in H as [H H6].
    apply andb_true_iff in H as [H H5]. apply andb_true_iff in H as [H3 H4].
    apply negb_true_iff in H3, H12, H14. apply Nat.leb_le in H11, H15.
    apply str_eqb_eq in H8. apply truthy_nonempty in H10.
    assert (H9' : reserved_found name = None)
      by (destruct (reserved_found name); [discriminate|reflexivity]).
    split; [reflexivity|]. exists entries, raw.
    split; [reflexivity|]. split; [assumption|]. split; [reflexivity|].
    cbv zeta. fold fm body name desc. fold report.
    split; [exact H3|]. split; [exact H4|]. split; [exact H5|].
    split; [exact H8|]. split; [exact H9'|]. split; [exact H10|].
    split; [exact H11|]. split; [exact H12|]. split; [exact H13|].
    split; [exact H14|]. split; [exact H15|]. split; [exact Hp|exact Hf].
  - intros (_ & entries' & raw' & Hls' & _ & Hread' & Hcond).
    injection Hls' as <-. injection Hread' as <-.
    destruct Hcond as (H3 & H4 & H5 & H8 & H9 & H10 & H11 & H12 & H13
                       & H14 & H15 & Hp & Hf).
    fold fm body name desc in H8, H9, H10, H11, H12, H13, H14.
    fold report in Hp, Hf.
    split; [|split; [exact Hp|exact Hf]].
    assert (H6 : truthy name = true).
    { destruct name eqn:Hn; [|reflexivity].
      rewrite <- H8 in H4. discriminate H4. }
    assert (H7 : is_kebab_case name = true) by now rewrite H8.
    apply truthy_nonempty in H10. apply Nat.leb_le in H11, H15.
    apply str_eqb_eq in H8.
    rewrite H3, H4, H5, H6, H7, H8, H9, H10, H11, H12, H13, H14, H15.
    reflexivity.
Qed.

(** ** Trigger phrases *)

(** X8.  Rule 13 passes exactly when the lower-cased description holds
    one of the four trigger phrases; the letter case of the phrase in
    the description does not matter. *)
Theorem trigger_rule_spec : forall desc : str,
  (passed (rule13 desc) = true <->
   exists sig, In sig trigger_signals /\
               exists a b, lower desc = a ++ sig ++ b) /\
  (forall a u b sig,
     In sig trigger_signals -> lower u = sig -> desc = a ++ u ++ b ->
     passed (rule13 desc) = true).
Proof.
  intros desc.
  assert (H : passed (rule13 desc) = true <->
              exists sig, In sig trigger_signals /\
                          exists a b, lower desc = a ++ sig ++ b).
  { cbn [rule13 passed]. rewrite existsb_exists.
    split; intros (sig & Hin & Hc); exists sig; (split; [exact Hin|]);
      now apply contains_iff. }
  split; [exact H|].
  intros a u b sig Hin Hu ->. apply H. exists sig. split; [exact Hin|].
  exists (lower a), (lower b). unfold lower. rewrite !map_app.
  fold (lower u). now rewrite Hu.
Qed.

(** ** The report *)

Lemma report_loop_lines results : forall n,
  fst (report_loop results n) = map report_line results.
Proof.
  induction results as [|r results IH]; intros n; [reflexivity|].
  cbn [report_loop map].
  specialize (IH (if passed r then n else n + 1)).
  destruct (report_loop results (if passed r then n else n + 1)).
  cbn [fst] in *. now rewrite IH.
Qed.

(** X9.  The report is a title and a rule, one line for each result in
    the order of the results, a rule and a verdict.  The line of a
    failed result with a remediation text ends with that text. *)
Theorem report_lines_spec :
  forall (w : World) (results : list CheckResult) (skill_dir : str),
  (exists title verdict,
     fst (print_report w results skill_dir)
     = [title; rule_line] ++ map report_line results
       ++ [rule_line; verdict]) /\
  (forall r, In r results -> passed r = false -> fix_ r <> [] ->
     In (report_line r) (fst (print_report w results skill_dir)) /\
     exists before,
       report_line r = before ++ "Fix:" ++ RESET ++ " " ++ fix_ r).
Proof.
  intros w results skill_dir.
  assert (H : exists title verdict,
     fst (print_report w results skill_dir)
     = [title; rule_line] ++ map report_line results
       ++ [rule_line; verdict]).
  { unfold print_report.
    pose proof (report_loop_lines results 0) as Hl.
    destruct (report_loop results 0) as [lines failures].
    cbn [fst] in *. subst lines. eexists. eexists. reflexivity. }
  split; [exact H|].
  intros r Hin Hfail Hfix. split.
  - destruct H as (title & verdict & ->).
    apply in_or_app. right. apply in_or_app. left. now apply in_map.
  - unfold report_line, cross. rewrite Hfail.
    apply truthy_nonempty in Hfix. rewrite Hfix.
    set (msg := if truthy (detail r)
                then label r ++ " " ++ EM_DASH ++ " " ++ detail r
                else label r).
    exists ((RED ++ CROSS_MARK ++ RESET ++ "  " ++ msg)
            ++ [NL] ++ "      " ++ RED).
    rewrite <- (app_assoc _ ([NL] ++ "      " ++ RED)).
    reflexivity.
Qed.

(** The theorem at a report of one failed result. *)
Lemma report_lines_witness :
  In (report_line (no_directory "x"))
     (fst (print_report (MkWorld (fun p => p) (fun _ => false)
                                 (fun _ => None) (fun _ => None)
                                 (fun _ _ => true) (fun _ => true))
                        [no_directory "x"] "x")).
Proof.
  apply (report_lines_spec
           (MkWorld (fun p => p) (fun _ => false)
                    (fun _ => None) (fun _ => None)
                    (fun _ _ => true) (fun _ => true))
           [no_directory "x"] "x").
  - now left.
  - reflexivity.
  - discriminate.
Defined.

(** ** A key without a value on its line *)

(** X10.  When nothing but a newline follows the key on its line, the
    text of the next line is taken as the value: for the name, and for
    the description, whose continuation lines then follow that line. *)
Theorem empty_value_takes_next_line :
  forall (lines : list str) (v : str) (conts : list str) (post : str),
  starts_nonspace v -> ~ In NL v ->
  (Forall (other_line "name:") lines -> ends_line post ->
   name_value_of (unlines lines ++ "name:" ++ [NL] ++ v ++ post)
   = strip_by (in_chars [DQUOTE; SQUOTE]) (strip v)) /\
  (Forall (other_line "description:") lines ->
   startswith "description:" (strip v) = false ->
   Forall (fun l : str =>
             ~ In NL l /\ startswith "description:" (strip l) = false)
          conts ->
   ends_block post ->
   desc_value_of
     (unlines lines ++ "description:" ++ [NL] ++ v
        ++ continuation conts ++ post)
   = join " " (filter truthy (strip v :: map strip conts))).
Proof.
  intros lines v conts post Hv Hnl. split.
  - intros Hlines Hpost. now apply name_value_of_line.
  - intros Hlines Hkey Hconts Hpost.
    assert (Hall : Forall (fun l : str => ~ In NL l) conts).
    { eapply Forall_impl; [|exact Hconts]. now intros l [H _]. }
    unfold desc_value_of, desc_re. cbn [Seq].
    rewrite (search_keyed "description:" _ lines _ post
               [(1, v ++ continuation conts)]);
      [| no_newline | discriminate | assumption
       | intros prev Hb; now apply first_desc_re].
    unfold group0. cbn [m_from m_rest].
    replace ("description:" ++ [NL] ++ v ++ continuation conts ++ post)
      with ((("description:" ++ [NL] ++ v) ++ continuation conts) ++ post)
      by now rewrite <- !app_assoc.
    rewrite consumed_app.
    replace (("description:" ++ [NL] ++ v) ++ continuation conts)
      with ("description:" ++ NL :: (v ++ continuation conts))
      by now rewrite <- !app_assoc.
    rewrite split_on_line by no_newline.
    rewrite split_on_continuation by assumption.
    cbn [map].
    change (clean_desc_line "description:") with (@nil ascii).
    assert (Ev : clean_desc_line v = strip v).
    { unfold clean_desc_line. now rewrite Hkey. }
    assert (Em : map clean_desc_line (map (fun l : str => "  " ++ l) conts)
                 = map strip conts).
    { rewrite map_map. apply map_ext_in. intros l Hl.
      rewrite Forall_forall in Hconts. destruct (Hconts l Hl) as [_ H].
      now apply clean_continuation_line. }
    rewrite Ev, Em. reflexivity.
Qed.

(** The theorem at a frontmatter whose name and description are both
    left empty before another key. *)
Lemma empty_value_witness :
  name_value_of ("name:" ++ [NL] ++ "description: x" ++ [])
  = "description: x" /\
  desc_value_of ("description:" ++ [NL] ++ "metadata: y" ++ [] ++ [])
  = "metadata: y".
Proof.
  assert (H1 : starts_nonspace "description: x") by reflexivity.
  assert (H2 : ~ In NL "description: x") by no_newline.
  assert (H3 : starts_nonspace "metadata: y") by reflexivity.
  assert (H4 : ~ In NL "metadata: y") by no_newline.
  split.
  - apply (proj1 (empty_value_takes_next_line [] "description: x" [] []
                    H1 H2)); [constructor|exact I].
  - apply (proj2 (empty_value_takes_next_line [] "metadata: y" [] []
                    H3 H4)); [constructor|reflexivity|constructor|exact I].
Defined.

(** ** The remediation text of rule 9 *)

(** X11.  When rule 9 fails, its remediation text names a reserved
    word that occurs in the lower-cased name: claude when claude
    occurs, anthropic otherwise. *)
Theorem reserved_fix_names_word : forall name : str,
  passed (rule9 name) = false ->
  exists r : str,
    reserved_found name = Some r /\
    contains r (lower name) = true /\
    (r = "claude" \/
     (r = "anthropic" /\ contains "claude" (lower name) = false)) /\
    fix_ (rule9 name)
    = "Remove '" ++ r ++ "' from the skill name " ++ EM_DASH
      ++ " these are reserved by Anthropic.".
Proof.
  intros name H. cbn [rule9 passed fix_] in *. unfold reserved_found in *.
  cbn [List.find] in *.
  destruct (contains "claude" (lower name)) eqn:E1.
  - exists "claude". repeat split; auto.
  - destruct (contains "anthropic" (lower name)) eqn:E2; [|discriminate].
    exists "anthropic". repeat split; auto.
Qed.

(** The theorem at a name that holds both reserved words. *)
Lemma reserved_fix_witness :
  exists r : str,
    reserved_found "anthropic-claude" = Some r /\
    contains r (lower "anthropic-claude") = true /\
    (r = "claude" \/
     (r = "anthropic" /\
      contains "claude" (lower "anthropic-claude") = false)) /\
    fix_ (rule9 "anthropic-claude")
    = "Remove '" ++ r ++ "' from the skill name " ++ EM_DASH
      ++ " these are reserved by Anthropic.".
Proof.
  apply (reserved_fix_names_word "anthropic-claude"). reflexivity.
Defined.

(** ** The name against the folder *)

(** X12.  Rule 8 adds its result exactly when a name was found and the
    folder name is kebab-case; it then passes exactly when the two are
    the same string.  With a folder name that is not kebab-case a
    mismatch is not reported. *)
Theorem name_matches_folder_spec :
  forall (entries : list str) (folder raw : str),
  let checks := content_checks entries folder raw in
  let name := name_value_of (fst (count_chars_excluding_frontmatter raw)) in
  ((exists r, In r checks /\
              startswith "name field matches" (label r) = true) <->
   name <> [] /\ is_kebab_case folder = true) /\
  (forall r, In r checks ->
             startswith "name field matches" (label r) = true ->
             r = rule8 name folder /\
             (passed r = true <-> name = folder)).
Proof.
  intros entries folder raw checks name. subst checks.
  assert (Hr : forall r, In r (content_checks entries folder raw) ->
                 startswith "name field matches" (label r) = true ->
                 truthy name = true /\ is_kebab_case folder = true /\
                 r = rule8 name folder).
  { intros r Hin Hlab. apply content_checks_In in Hin. fold name in Hin.
    destruct Hin as [Hin|[Hin|[Hin|[Hin|[Hin|[Hin|Hin]]]]]];
      try (subst r; discriminate Hlab);
      try (destruct Hin as (_ & Hin); subst r; discriminate Hlab).
    - exact Hin.
    - repeat (destruct Hin as [Hin|Hin]);
        try (destruct Hin as (_ & Hin)); subst r; discriminate Hlab. }
  split; [split|].
  - intros (r & Hin & Hlab). destruct (Hr r Hin Hlab) as (Ht & Hf & _).
    split; [now apply truthy_nonempty|assumption].
  - intros [Hn Hf]. apply truthy_nonempty in Hn.
    exists (rule8 name folder). split; [|reflexivity].
    apply content_checks_In. fold name. auto 20.
  - intros r Hin Hlab. destruct (Hr r Hin Hlab) as (_ & _ & ->).
    split; [reflexivity|]. cbn [rule8 passed]. apply str_eqb_eq.
Qed.

(** ** A well-formed skill is accepted *)

Lemma kebab_scan_head n :
  kebab_scan false n = true ->
  exists c n', n = c :: n' /\ lower_alnum c = true.
Proof.
  destruct n as [|c n]; [discriminate|]. cbn [kebab_scan].
  destruct (lower_alnum c) eqn:E; [now exists c, n|].
  destruct (Ascii.eqb c "-"); discriminate.
Qed.

Lemma kebab_scan_last n ok :
  n <> [] -> kebab_scan ok n = true ->
  exists n' c, n = n' ++ [c] /\ lower_alnum c = true.
Proof.
  intros Hne H. destruct (exists_last Hne) as (n' & c & ->).
  exists n', c. split; [reflexivity|].
  pose proof (kebab_scan_chars _ _ H) as Hc.
  rewrite Forall_forall in Hc.
  destruct (Hc c) as [Ha|Hh]; [apply in_or_app; right; now left|exact Ha|].
  subst c. pose proof (kebab_scan_trailing_hyphen n' ok) as Hx.
  change (n' ++ "-") with (n' ++ ["-"%char]) in Hx. congruence.
Qed.

Lemma alnum_not_space c : lower_alnum c = true -> isspace c = false.
Proof.
  unfold lower_alnum, isspace. intros H.
  apply orb_true_iff in H as [H|H]; apply andb_true_iff in H as [H1 H2];
    apply Nat.leb_le in H1, H2;
    repeat (apply orb_false_iff; split);
    try (apply andb_false_iff; right; apply Nat.leb_gt; lia);
    apply Nat.eqb_neq; lia.
Qed.

Lemma alnum_not_quote c :
  lower_alnum c = true -> in_chars [DQUOTE; SQUOTE] c = false.
Proof.
  intros H. unfold in_chars. cbn [existsb].
  destruct (Ascii.eqb c DQUOTE) eqn:E1;
    [apply Ascii.eqb_eq in E1; subst c; discriminate H|].
  destruct (Ascii.eqb c SQUOTE) eqn:E2;
    [apply Ascii.eqb_eq in E2; subst c; discriminate H|].
  reflexivity.
Qed.

Lemma strip_by_id p (first last : ascii) (mid : str) (s : str) :
  s = first :: mid -> (exists mid', s = mid' ++ [last]) ->
  p first = false -> p last = false -> strip_by p s = s.
Proof.
  intros -> [mid' Hl] Hf Hla. unfold strip_by, rstrip_by.
  cbn [lstrip_by]. rewrite Hf. rewrite Hl, rev_app_distr.
  cbn [rev app lstrip_by]. rewrite Hla. cbn [rev].
  now rewrite rev_involutive.
Qed.

Lemma strip_framed ws1 ws2 (body : str) :
  all_space ws1 -> all_space ws2 ->
  starts_nonspace body -> starts_nonspace (rev body) ->
  strip (ws1 ++ body ++ ws2) = body.
Proof.
  intros H1 H2 Hb Hr. rewrite strip_space_prefix by assumption.
  unfold strip, strip_by, rstrip_by.
  destruct body as [|c body]; [destruct Hb|]. cbn [starts_nonspace] in Hb.
  cbn [app lstrip_by]. rewrite Hb.
  change (c :: body ++ ws2) with ((c :: body) ++ ws2).
  rewrite rev_app_distr.
  assert (Hs : all_space (rev ws2)).
  { unfold all_space in *. rewrite forallb_forall in *.
    intros x Hx. apply H2. now apply in_rev. }
  pose proof (lstrip_space_prefix (rev ws2) (rev (c :: body)) Hs) as E.
  unfold lstrip in E. rewrite E.
  destruct (rev (c :: body)) as [|d r] eqn:Er; [destruct Hr|].
  cbn [starts_nonspace] in Hr. cbn [lstrip_by]. rewrite Hr.
  rewrite <- Er. apply rev_involutive.
Qed.

Lemma kebab_strip_id p n :
  kebab_scan false n = true ->
  (forall c, lower_alnum c = true -> p c = false) ->
  strip_by p n = n.
Proof.
  intros H Hp. destruct (kebab_scan_head n H) as (c & n' & Hn & Hc).
  assert (Hne : n <> []) by (rewrite Hn; discriminate).
  destruct (kebab_scan_last n false Hne H) as (m & d & Hm & Hd).
  apply (strip_by_id p c d n'); auto. now exists m.
Qed.

Lemma kebab_no_newline n : kebab_scan false n = true -> ~ In NL n.
Proof.
  intros H Hin. pose proof (kebab_scan_chars _ _ H) as Hc.
  rewrite Forall_forall in Hc. destruct (Hc NL Hin); discriminate.
Qed.

(** No delimiter starts inside a kebab-case word that a character other
    than a hyphen follows. *)
Lemma kebab_no_delimiter rest : forall n ok,
  kebab_scan ok n = true ->
  match rest with [] => True | c :: _ => c <> "-"%char end ->
  contains "---" (n ++ rest) = contains "---" rest.
Proof.
  induction n as [|c n IH]; intros ok H Hrest; [reflexivity|].
  cbn [app contains]. cbn [kebab_scan] in H.
  destruct (lower_alnum c) eqn:Hc.
  - rewrite (IH true) by assumption.
    assert (E : startswith "---" (c :: n ++ rest) = false).
    { cbn [startswith String.list_ascii_of_string].
      destruct (Ascii.eqb "-" c) eqn:E; [|reflexivity].
      apply Ascii.eqb_eq in E. subst c. discriminate Hc. }
    now rewrite E.
  - destruct (Ascii.eqb c "-") eqn:Eh; [|discriminate].
    apply andb_true_iff in H as [_ H].
    rewrite (IH false) by assumption.
    destruct (kebab_scan_head n H) as (d & n' & -> & Hd).
    assert (E : startswith "---" (c :: (d :: n') ++ rest) = false).
    { cbn [startswith String.list_ascii_of_string app].
      destruct (Ascii.eqb "-" c); [|reflexivity]. cbn [andb].
      destruct (Ascii.eqb "-" d) eqn:E; [|reflexivity].
      apply Ascii.eqb_eq in E. subst d. discriminate Hd. }
    now rewrite E.
Qed.

Lemma word_count_token t :
  token t -> word_count t = 1.
Proof.
  intros Ht. unfold word_count.
  rewrite (tokenized_split_ws t [t]); [reflexivity|].
  apply (T_last [] t); [reflexivity|assumption].
Qed.

Lemma kebab_token n : kebab_scan false n = true -> token n.
Proof.
  intros H. split.
  - destruct n; [discriminate|discriminate].
  - apply forallb_forall. intros c Hin.
    pose proof (kebab_scan_chars _ _ H) as Hc.
    rewrite Forall_forall in Hc. apply negb_true_iff.
    destruct (Hc c Hin) as [Ha| ->]; [now apply alnum_not_space|reflexivity].
Qed.

(** What the parts of the validator make of the manifest of a
    kebab-case name. *)
Lemma manifest_named_parts n :
  kebab_scan false n = true ->
  count_chars_excluding_frontmatter (manifest_named n)
  = ("name: " ++ n ++ [NL]
       ++ "description: Use when the user asks for a plan.",
     "Body." : str) /\
  name_value_of ("name: " ++ n ++ [NL]
                   ++ "description: Use when the user asks for a plan.")
  = n /\
  desc_value_of ("name: " ++ n ++ [NL]
                   ++ "description: Use when the user asks for a plan.")
  = "Use when the user asks for a plan." /\
  fm_valid (manifest_named n) = true /\
  word_count (manifest_named n) = 14.
Proof.
  intros H.
  pose proof (kebab_no_newline n H) as Hnl.
  destruct (kebab_scan_head n H) as (c & n' & Hn & Hc).
  split; [|split; [|split; [|split]]].
  - unfold manifest_named.
    replace ("---" ++ [NL] ++ "name: " ++ n ++ [NL]
             ++ "description: Use when the user asks for a plan." ++ [NL]
             ++ "---" ++ [NL] ++ "Body." ++ [NL])
      with ("---" ++ ([NL] ++ "name: " ++ n ++ [NL]
                      ++ "description: Use when the user asks for a plan."
                      ++ [NL])
            ++ "---" ++ ([NL] ++ "Body." ++ [NL]))
      by now rewrite <- !app_assoc.
    rewrite split_at_first_delimiter_lemma.
    + f_equal.
      replace ([NL] ++ "name: " ++ n ++ [NL]
               ++ "description: Use when the user asks for a plan." ++ [NL])
        with ([NL] ++ ("name: " ++ n ++ [NL]
                       ++ "description: Use when the user asks for a plan.")
              ++ [NL])
        by now rewrite <- !app_assoc.
      apply strip_framed; try reflexivity.
      rewrite !rev_app_distr. reflexivity.
    + rewrite <- !app_assoc. cbn [app String.list_ascii_of_string].
      cbn [contains startswith Ascii.eqb Bool.eqb andb orb].
      rewrite (kebab_no_delimiter _ n false H); [reflexivity|discriminate].
  - change ("name: " ++ n ++ [NL]
            ++ "description: Use when the user asks for a plan.")
      with (unlines [] ++ "name:" ++ " " ++ n
              ++ (NL :: "description: Use when the user asks for a plan.")).
    rewrite name_value_of_line.
    + fold (strip n). unfold strip.
      rewrite (kebab_strip_id isspace n H alnum_not_space).
      apply (kebab_strip_id _ n H alnum_not_quote).
    + constructor.
    + reflexivity.
    + rewrite Hn. cbn. now apply alnum_not_space.
    + exact Hnl.
    + reflexivity.
  - replace ("name: " ++ n ++ [NL]
             ++ "description: Use when the user asks for a plan.")
      with (unlines ["name: " ++ n] ++ "description:" ++ " "
              ++ "Use when the user asks for a plan."
              ++ continuation [] ++ [])
      by (unfold unlines; cbn [map concat continuation];
          rewrite !app_nil_r, <- !app_assoc; reflexivity).
    rewrite desc_value_of_block.
    + reflexivity.
    + constructor; [|constructor]. split; [|reflexivity].
      intros Hin. apply in_app_or in Hin as [Hin|Hin]; [|contradiction].
      revert Hin. no_newline.
    + reflexivity.
    + no_newline.
    + reflexivity.
    + no_newline.
    + constructor.
    + exact I.
  - rewrite fm_valid_unfold. apply andb_true_iff. split; [reflexivity|].
    apply closing_match_iff.
    exists [], [],
      ("name: " ++ n ++ [NL]
         ++ "description: Use when the user asks for a plan."),
      ([NL] ++ "Body." ++ [NL]).
    split; [|split; [now left|reflexivity]].
    unfold manifest_named. now rewrite <- !app_assoc.
  - unfold manifest_named, word_count, split_ws.
    replace ("---" ++ [NL] ++ "name: " ++ n ++ [NL]
             ++ "description: Use when the user asks for a plan." ++ [NL]
             ++ "---" ++ [NL] ++ "Body." ++ [NL])
      with (("---" ++ [NL] ++ "name:") ++ " "%char
            :: (n ++ NL
                  :: ("description: Use when the user asks for a plan."
                        ++ [NL] ++ "---" ++ [NL] ++ "Body." ++ [NL])))
      by (rewrite <- !app_assoc; reflexivity).
    rewrite split_ws_aux_length_sep by reflexivity.
    rewrite split_ws_aux_length_sep by reflexivity.
    pose proof (word_count_token n (kebab_token n H)) as Hw.
    unfold word_count, split_ws in Hw. rewrite Hw. reflexivity.
Qed.

(** X13.  A folder whose name n is a kebab-case word free of reserved
    words, without a README, and whose manifest is [manifest_named n],
    which names the folder and carries a one-line description with a
    trigger phrase and a body of one word, is accepted: all fifteen
    rules give a result and every result passes; where every call of
    [print] returns and the standard output can be flushed, the report
    is printed and the status is 0. *)
Theorem accepts_well_formed :
  forall (w : World) (prog skill_dir n : str) (entries : list str),
  let d := abspath w skill_dir in
  is_kebab_case n = true -> reserved_found n = None ->
  isdir w d = true -> basename d = n ->
  listdir w d = Some entries -> In ("SKILL.md" : str) entries ->
  existsb names_readme entries = false ->
  read_text w (path_join d "SKILL.md") = Some (manifest_named n) ->
  exists results,
    run_checks w skill_dir = Some results /\ length results = 15 /\
    Forall (fun r => passed r = true) results /\
    ((forall done t, can_print w done t = true) ->
     (forall out, can_flush w out = true) ->
     main w [prog; skill_dir]
     = MkExit (fst (print_report w results skill_dir)) 0).
Proof.
  intros w prog skill_dir n entries d Hk Hres Hdir Hbase Hls Hin Hread Hraw.
  pose proof Hk as Hscan.
  apply is_kebab_case_iff, kebab_segments_scan in Hscan.
  destruct (manifest_named_parts n Hscan) as (Hsplit & Hname & Hdesc & Hfm & Hwc).
  assert (Hrun : run_checks w skill_dir
                 = Some (directory_found d :: manifest_found
                         :: content_checks entries n (manifest_named n))).
  { unfold run_checks. fold d. rewrite Hdir, Hls. cbn [negb].
    destruct (filter _ entries) as [|e l] eqn:E.
    - apply skill_md_filter in E. contradiction.
    - now rewrite Hraw, Hbase. }
  assert (Hflags : map passed (content_checks entries n (manifest_named n))
                   = repeat true 13).
  { rewrite content_checks_passed, Hsplit. cbn [fst snd].
    rewrite Hname, Hdesc.
    assert (Ht : truthy n = true) by (destruct n; [discriminate|reflexivity]).
    rewrite Ht, Hk. cbn [andb app].
    cbn [rule3 rule4 rule5 rule7 rule8 rule9 passed].
    rewrite Hread, Hk, Hfm, Hres.
    assert (E8 : str_eqb n n = true) by now apply str_eqb_eq.
    rewrite E8. cbn [negb].
    change (truthy "Use when the user asks for a plan.") with true.
    cbv iota. cbn [rule15 passed]. rewrite Hwc. reflexivity. }
  eexists. split; [exact Hrun|]. split; [|split].
  - cbn [length]. rewrite <- (length_map passed), Hflags. reflexivity.
  - constructor; [reflexivity|]. constructor; [reflexivity|].
    apply Forall_forall. intros r Hr.
    apply (in_map passed) in Hr. rewrite Hflags in Hr.
    now apply repeat_spec in Hr.
  - intros Hprint Hflush.
    rewrite (main_report _ _ _ _ _ Hrun), (emit_always _ Hprint).
    cbn [fst snd app]. unfold exit_process.
    destruct (print_report_nonempty w
                (directory_found d :: manifest_found
                 :: content_checks entries n (manifest_named n)) skill_dir)
      as (title & more & E).
    rewrite E. cbn [flushed]. rewrite Hflush.
    assert (Hz : failed_count
                   (directory_found d :: manifest_found
                    :: content_checks entries n (manifest_named n)) = 0).
    { apply failed_count_zero.
      cbn [map forallb passed directory_found manifest_found andb].
      rewrite Hflags. reflexivity. }
    rewrite Hz. reflexivity.
Qed.

(** The theorem at the folder my-skill, on a standard output that
    takes every text. *)
Lemma accepts_well_formed_witness :
  let w := skill_folder (Some (manifest_named "my-skill"))
                        (fun _ : str => true) in
  exists results,
    run_checks w "my-skill" = Some results /\
    length results = 15 /\
    status (main w [("validate_skill.py" : str); ("my-skill" : str)]) = 0.
Proof.
  intros w.
  destruct (accepts_well_formed w "validate_skill.py" "my-skill" "my-skill"
              ["SKILL.md" : str])
    as (results & Hrun & Hlen & Hall & Hmain); try reflexivity.
  - now left.
  - exists results. split; [exact Hrun|]. split; [exact Hlen|].
    rewrite Hmain; [reflexivity| |]; intros; reflexivity.
Defined.
